(** * Neon Blade: the perception-to-collision core of [App.tsx]

    A shallow embedding of the game logic of [src/App.tsx] and of the level
    fetch of [src/services/gemini.ts].

    JavaScript numbers are IEEE 754 binary64 values; they are modelled by
    Rocq's primitive [float], whose operations are the same binary64
    operations.  The collision test is written once, over an interface of
    number operations ([JSNumber]), and read at two instances: [float], which
    is what the program runs, and [xnum], the same special values with exact
    rational arithmetic in place of rounding.

    Score, combo and lives only ever hold small integers (they start at 0, 0
    and 3 and move in steps of at most a few units per slice), a range on
    which binary64 arithmetic is exact; they are modelled in [Z]. *)

From Stdlib Require Import String ZArith QArith Uint63 Floats List Bool Lia Lra Psatz.
Import ListNotations.

Set Warnings "-inexact-float".

(** ** Numbers *)

Declare Scope js_scope.
Delimit Scope js_scope with js.

Class JSNumber (N : Type) : Type := {
  num_zero : N;
  num_one : N;
  num_add : N -> N -> N;
  num_sub : N -> N -> N;
  num_mul : N -> N -> N;
  num_div : N -> N -> N;
  Math_min : N -> N -> N;
  Math_max : N -> N -> N;
  num_lt : N -> N -> bool
}.

Infix "+" := num_add : js_scope.
Infix "-" := num_sub : js_scope.
Infix "*" := num_mul : js_scope.
Infix "/" := num_div : js_scope.
Infix "<?" := num_lt : js_scope.

(** [v ** 2]: engines evaluate a square as the product [v * v]. *)
Definition pow2 {N} `{JSNumber N} (v : N) : N := (v * v)%js.

(** *** binary64 *)

Module F64.

(** [Math.min]: NaN if either argument is NaN, and -0 counts as smaller
    than +0. *)
Definition min (a b : float) : float :=
  if (is_nan a || is_nan b)%bool then nan
  else if (a <? b)%float then a
  else if (b <? a)%float then b
  else if get_sign a then a else b.

(** [Math.max]: NaN if either argument is NaN, and +0 counts as larger
    than -0. *)
Definition max (a b : float) : float :=
  if (is_nan a || is_nan b)%bool then nan
  else if (a <? b)%float then b
  else if (b <? a)%float then a
  else if get_sign a then b else a.

(** A number is NaN; a number is a zero (of either sign) or NaN. *)
Definition NaN (f : float) : Prop := Prim2SF f = S754_nan.
Definition zero_or_NaN (f : float) : Prop :=
  match Prim2SF f with
  | S754_zero _ | S754_nan => True
  | _ => False
  end.

End F64.

#[export] Instance float_JSNumber : JSNumber float := {
  num_zero := 0%float;
  num_one := 1%float;
  num_add := PrimFloat.add;
  num_sub := PrimFloat.sub;
  num_mul := PrimFloat.mul;
  num_div := PrimFloat.div;
  Math_min := F64.min;
  Math_max := F64.max;
  num_lt := PrimFloat.ltb
}.

(** *** Exact arithmetic with the special values *)

(** The values of a JavaScript number when no operation rounds: a rational,
    an infinity or NaN.  (There is no negative zero and no overflow.) *)
Inductive xnum : Type :=
| XFin (q : Q)
| XInf (negative : bool)
| XNaN.

Module Exact.

Definition Qltb (p q : Q) : bool :=
  match (p ?= q)%Q with Lt => true | _ => false end.

Definition Qsign_neg (q : Q) : bool := Qltb q 0.

Definition is_zero (q : Q) : bool := Qeq_bool q 0.

Definition add (a b : xnum) : xnum :=
  match a, b with
  | XNaN, _ | _, XNaN => XNaN
  | XFin p, XFin q => XFin (p + q)
  | XFin _, XInf s | XInf s, XFin _ => XInf s
  | XInf s, XInf s' => if Bool.eqb s s' then XInf s else XNaN
  end.

Definition opp (a : xnum) : xnum :=
  match a with
  | XNaN => XNaN
  | XFin p => XFin (- p)
  | XInf s => XInf (negb s)
  end.

Definition sub (a b : xnum) : xnum :=
  match a, b with
  | XFin p, XFin q => XFin (p - q)
  | _, _ => add a (opp b)
  end.

Definition mul (a b : xnum) : xnum :=
  match a, b with
  | XNaN, _ | _, XNaN => XNaN
  | XFin p, XFin q => XFin (p * q)
  | XFin p, XInf s | XInf s, XFin p =>
      if is_zero p then XNaN else XInf (xorb (Qsign_neg p) s)
  | XInf s, XInf s' => XInf (xorb s s')
  end.

Definition div (a b : xnum) : xnum :=
  match a, b with
  | XNaN, _ | _, XNaN => XNaN
  | XFin p, XFin q =>
      if is_zero q
      then if is_zero p then XNaN else XInf (Qsign_neg p)
      else XFin (p / q)
  | XFin _, XInf _ => XFin 0
  | XInf s, XFin q => XInf (xorb s (Qsign_neg q))
  | XInf _, XInf _ => XNaN
  end.

Definition lt (a b : xnum) : bool :=
  match a, b with
  | XNaN, _ | _, XNaN => false
  | XFin p, XFin q => Qltb p q
  | XFin _, XInf s => negb s
  | XInf s, XFin _ => s
  | XInf s, XInf s' => s && negb s'
  end.

Definition min (a b : xnum) : xnum :=
  match a, b with
  | XNaN, _ | _, XNaN => XNaN
  | _, _ => if lt b a then b else a
  end.

Definition max (a b : xnum) : xnum :=
  match a, b with
  | XNaN, _ | _, XNaN => XNaN
  | _, _ => if lt a b then b else a
  end.

(** What the operations above make of rational inputs: the clamp of a
    rational, and the squared distance from [(ox, oy)] to the point of
    parameter [t] on the line from [(x1, y1)] to [(x2, y2)]. *)
Definition clamp01Q (t : Q) : Q :=
  let m := if Qltb t 1 then t else 1 in
  if Qltb 0 m then m else 0.

Definition sq_dist_at (x1 y1 x2 y2 ox oy t : Q) : Q :=
  (ox - (x1 + t * (x2 - x1))) * (ox - (x1 + t * (x2 - x1)))
  + (oy - (y1 + t * (y2 - y1))) * (oy - (y1 + t * (y2 - y1))).

End Exact.

#[export] Instance xnum_JSNumber : JSNumber xnum := {
  num_zero := XFin 0;
  num_one := XFin 1;
  num_add := Exact.add;
  num_sub := Exact.sub;
  num_mul := Exact.mul;
  num_div := Exact.div;
  Math_min := Exact.min;
  Math_max := Exact.max;
  num_lt := Exact.lt
}.

(** ** Data model *)

(** [TrailPoint]: one sample of the blade, newest first in the trail. *)
Record TrailPoint (N : Type) : Type := mkTrailPoint {
  tp_x : N;
  tp_y : N;
  tp_life : N
}.
Arguments mkTrailPoint {N} _ _ _.
Arguments tp_x {N} _.
Arguments tp_y {N} _.
Arguments tp_life {N} _.

(** [GameObject]: a falling labelled bubble. *)
Record GameObject (N : Type) : Type := mkGameObject {
  obj_id : string;
  obj_text : string;
  obj_x : N;
  obj_y : N;
  obj_vx : N;
  obj_vy : N;
  obj_rotation : N;
  obj_vRotation : N;
  obj_isTarget : bool;
  obj_radius : N;
  obj_sliced : bool;
  obj_color : string
}.
Arguments mkGameObject {N} _ _ _ _ _ _ _ _ _ _ _ _.
Arguments obj_id {N} _.
Arguments obj_text {N} _.
Arguments obj_x {N} _.
Arguments obj_y {N} _.
Arguments obj_vx {N} _.
Arguments obj_vy {N} _.
Arguments obj_rotation {N} _.
Arguments obj_vRotation {N} _.
Arguments obj_isTarget {N} _.
Arguments obj_radius {N} _.
Arguments obj_sliced {N} _.
Arguments obj_color {N} _.

(** ** The collision test *)

Section Collision.
Context {N : Type} `{JSNumber N}.
Local Open Scope js_scope.

(** [checkCollision] of [App.tsx], line by line. *)
Definition checkCollision (p1 p2 : TrailPoint N) (obj : GameObject N) : bool :=
  let dx := tp_x p2 - tp_x p1 in
  let dy := tp_y p2 - tp_y p1 in
  let lenSq := dx * dx + dy * dy in
  let t := ((obj_x obj - tp_x p1) * dx + (obj_y obj - tp_y p1) * dy) / lenSq in
  let t := Math_max num_zero (Math_min num_one t) in
  let closestX := tp_x p1 + t * dx in
  let closestY := tp_y p1 + t * dy in
  let distSq := pow2 (obj_x obj - closestX) + pow2 (obj_y obj - closestY) in
  distSq <? obj_radius obj * obj_radius obj.

End Collision.

(** [Particle]: one fragment of a splatter. *)
Record Particle : Type := mkParticle {
  p_x : float;
  p_y : float;
  p_vx : float;
  p_vy : float;
  p_life : float;
  p_color : string;
  p_size : float
}.

(** [LevelData], as [gemini.ts] requests it from the content service. *)
Record LevelData : Type := mkLevelData {
  themeName : string;
  instruction : string;
  targets : list string;
  distractors : list string
}.

(** The members of [GameState] that [App.tsx] uses. *)
Inductive GameState : Type := MENU | LOADING_LEVEL | PLAYING | GAME_OVER | ERROR.

(** The cues of [playSound]. *)
Inductive Sound : Type := snd_slash | snd_hit | snd_wrong | snd_combo.

Definition GameState_eqb (g1 g2 : GameState) : bool :=
  match g1, g2 with
  | MENU, MENU | LOADING_LEVEL, LOADING_LEVEL | PLAYING, PLAYING
  | GAME_OVER, GAME_OVER | ERROR, ERROR => true
  | _, _ => false
  end.

(** ** Constants *)

Definition MOTION_THRESHOLD : Z := 35.
Definition MIN_MOVEMENT_PIXELS : Z := 45.
Definition DOWNSAMPLE_FACTOR : float := 8.
Definition MOTION_SENSITIVITY : float := 2.5.
Definition GRAVITY : float := 0.25.
Definition SPAWN_RATE : float := 900.
(** The literals of [gameLoop] and [incrementCombo]. *)
Definition TRAIL_DECAY : float := 0.12.
Definition PARTICLE_GRAVITY : float := 0.15.
Definition PARTICLE_DECAY : float := 0.03.
Definition COMBO_TIMEOUT_MS : Z := 1500.
Definition Math_PI : float := 3.141592653589793.

(** ** The state of the component

    The React state ([gameState] .. [permissionGranted]), the refs
    ([prevFrameDataRef] .. [swordPosRef]) and what the component has asked of
    the browser: the timeouts that are set and have neither fired nor been
    cleared, the cues played, the number of [Math.random()] calls made, and
    the phases passed to [setGameState], newest first. *)
Record App : Type := mkApp {
  gameState : GameState;
  levelData : option LevelData;
  score : Z;
  combo : Z;
  lives : Z;
  errorMsg : option string;
  permissionGranted : bool;
  prevFrameDataRef : option (list Z);
  objectsRef : list (GameObject float);
  trailRef : list (TrailPoint float);
  particlesRef : list Particle;
  lastSpawnTimeRef : float;
  scoreRef : Z;
  comboRef : Z;
  comboTimerRef : option nat;
  livesRef : Z;
  swordPosRef : float * float;
  pendingTimeouts : list (nat * Z);
  nextTimeoutId : nat;
  played : list Sound;
  randomDraws : nat;
  phaseLog : list GameState
}.

Definition set_gameState (v : GameState) (a : App) : App :=
  mkApp v (levelData a) (score a) (combo a) (lives a) (errorMsg a)
    (permissionGranted a) (prevFrameDataRef a) (objectsRef a) (trailRef a)
    (particlesRef a) (lastSpawnTimeRef a) (scoreRef a) (comboRef a)
    (comboTimerRef a) (livesRef a) (swordPosRef a) (pendingTimeouts a)
    (nextTimeoutId a) (played a) (randomDraws a) (phaseLog a).

Definition set_levelData (v : option LevelData) (a : App) : App :=
  mkApp (gameState a) v (score a) (combo a) (lives a) (errorMsg a)
    (permissionGranted a) (prevFrameDataRef a) (objectsRef a) (trailRef a)
    (particlesRef a) (lastSpawnTimeRef a) (scoreRef a) (comboRef a)
    (comboTimerRef a) (livesRef a) (swordPosRef a) (pendingTimeouts a)
    (nextTimeoutId a) (played a) (randomDraws a) (phaseLog a).

Definition set_score (v : Z) (a : App) : App :=
  mkApp (gameState a) (levelData a) v (combo a) (lives a) (errorMsg a)
    (permissionGranted a) (prevFrameDataRef a) (objectsRef a) (trailRef a)
    (particlesRef a) (lastSpawnTimeRef a) (scoreRef a) (comboRef a)
    (comboTimerRef a) (livesRef a) (swordPosRef a) (pendingTimeouts a)
    (nextTimeoutId a) (played a) (randomDraws a) (phaseLog a).

Definition set_combo (v : Z) (a : App) : App :=
  mkApp (gameState a) (levelData a) (score a) v (lives a) (errorMsg a)
    (permissionGranted a) (prevFrameDataRef a) (objectsRef a) (trailRef a)
    (particlesRef a) (lastSpawnTimeRef a) (scoreRef a) (comboRef a)
    (comboTimerRef a) (livesRef a) (swordPosRef a) (pendingTimeouts a)
    (nextTimeoutId a) (played a) (randomDraws a) (phaseLog a).

Definition set_lives (v : Z) (a : App) : App :=
  mkApp (gameState a) (levelData a) (score a) (combo a) v (errorMsg a)
    (permissionGranted a) (prevFrameDataRef a) (objectsRef a) (trailRef a)
    (particlesRef a) (lastSpawnTimeRef a) (scoreRef a) (comboRef a)
    (comboTimerRef a) (livesRef a) (swordPosRef a) (pendingTimeouts a)
    (nextTimeoutId a) (played a) (randomDraws a) (phaseLog a).

Definition set_errorMsg (v : option string) (a : App) : App :=
  mkApp (gameState a) (levelData a) (score a) (combo a) (lives a) v
    (permissionGranted a) (prevFrameDataRef a) (objectsRef a) (trailRef a)
    (particlesRef a) (lastSpawnTimeRef a) (scoreRef a) (comboRef a)
    (comboTimerRef a) (livesRef a) (swordPosRef a) (pendingTimeouts a)
    (nextTimeoutId a) (played a) (randomDraws a) (phaseLog a).

Definition set_permissionGranted (v : bool) (a : App) : App :=
  mkApp (gameState a) (levelData a) (score a) (combo a) (lives a) (errorMsg a)
    v (prevFrameDataRef a) (objectsRef a) (trailRef a) (particlesRef a)
    (lastSpawnTimeRef a) (scoreRef a) (comboRef a) (comboTimerRef a)
    (livesRef a) (swordPosRef a) (pendingTimeouts a) (nextTimeoutId a)
    (played a) (randomDraws a) (phaseLog a).

Definition set_prevFrameDataRef (v : option (list Z)) (a : App) : App :=
  mkApp (gameState a) (levelData a) (score a) (combo a) (lives a) (errorMsg a)
    (permissionGranted a) v (objectsRef a) (trailRef a) (particlesRef a)
    (lastSpawnTimeRef a) (scoreRef a) (comboRef a) (comboTimerRef a)
    (livesRef a) (swordPosRef a) (pendingTimeouts a) (nextTimeoutId a)
    (played a) (randomDraws a) (phaseLog a).

Definition set_objectsRef (v : list (GameObject float)) (a : App) : App :=
  mkApp (gameState a) (levelData a) (score a) (combo a) (lives a) (errorMsg a)
    (permissionGranted a) (prevFrameDataRef a) v (trailRef a) (particlesRef a)
    (lastSpawnTimeRef a) (scoreRef a) (comboRef a) (comboTimerRef a)
    (livesRef a) (swordPosRef a) (pendingTimeouts a) (nextTimeoutId a)
    (played a) (randomDraws a) (phaseLog a).

Definition set_trailRef (v : list (TrailPoint float)) (a : App) : App :=
  mkApp (gameState a) (levelData a) (score a) (combo a) (lives a) (errorMsg a)
    (permissionGranted a) (prevFrameDataRef a) (objectsRef a) v
    (particlesRef a) (lastSpawnTimeRef a) (scoreRef a) (comboRef a)
    (comboTimerRef a) (livesRef a) (swordPosRef a) (pendingTimeouts a)
    (nextTimeoutId a) (played a) (randomDraws a) (phaseLog a).

Definition set_particlesRef (v : list Particle) (a : App) : App :=
  mkApp (gameState a) (levelData a) (score a) (combo a) (lives a) (errorMsg a)
    (permissionGranted a) (prevFrameDataRef a) (objectsRef a) (trailRef a) v
    (lastSpawnTimeRef a) (scoreRef a) (comboRef a) (comboTimerRef a)
    (livesRef a) (swordPosRef a) (pendingTimeouts a) (nextTimeoutId a)
    (played a) (randomDraws a) (phaseLog a).

Definition set_lastSpawnTimeRef (v : float) (a : App) : App :=
  mkApp (gameState a) (levelData a) (score a) (combo a) (lives a) (errorMsg a)
    (permissionGranted a) (prevFrameDataRef a) (objectsRef a) (trailRef a)
    (particlesRef a) v (scoreRef a) (comboRef a) (comboTimerRef a)
    (livesRef a) (swordPosRef a) (pendingTimeouts a) (nextTimeoutId a)
    (played a) (randomDraws a) (phaseLog a).

Definition set_scoreRef (v : Z) (a : App) : App :=
  mkApp (gameState a) (levelData a) (score a) (combo a) (lives a) (errorMsg a)
    (permissionGranted a) (prevFrameDataRef a) (objectsRef a) (trailRef a)
    (particlesRef a) (lastSpawnTimeRef a) v (comboRef a) (comboTimerRef a)
    (livesRef a) (swordPosRef a) (pendingTimeouts a) (nextTimeoutId a)
    (played a) (randomDraws a) (phaseLog a).

Definition set_comboRef (v : Z) (a : App) : App :=
  mkApp (gameState a) (levelData a) (score a) (combo a) (lives a) (errorMsg a)
    (permissionGranted a) (prevFrameDataRef a) (objectsRef a) (trailRef a)
    (particlesRef a) (lastSpawnTimeRef a) (scoreRef a) v (comboTimerRef a)
    (livesRef a) (swordPosRef a) (pendingTimeouts a) (nextTimeoutId a)
    (played a) (randomDraws a) (phaseLog a).

Definition set_comboTimerRef (v : option nat) (a : App) : App :=
  mkApp (gameState a) (levelData a) (score a) (combo a) (lives a) (errorMsg a)
    (permissionGranted a) (prevFrameDataRef a) (objectsRef a) (trailRef a)
    (particlesRef a) (lastSpawnTimeRef a) (scoreRef a) (comboRef a) v
    (livesRef a) (swordPosRef a) (pendingTimeouts a) (nextTimeoutId a)
    (played a) (randomDraws a) (phaseLog a).

Definition set_livesRef (v : Z) (a : App) : App :=
  mkApp (gameState a) (levelData a) (score a) (combo a) (lives a) (errorMsg a)
    (permissionGranted a) (prevFrameDataRef a) (objectsRef a) (trailRef a)
    (particlesRef a) (lastSpawnTimeRef a) (scoreRef a) (comboRef a)
    (comboTimerRef a) v (swordPosRef a) (pendingTimeouts a) (nextTimeoutId a)
    (played a) (randomDraws a) (phaseLog a).

Definition set_swordPosRef (v : float * float) (a : App) : App :=
  mkApp (gameState a) (levelData a) (score a) (combo a) (lives a) (errorMsg a)
    (permissionGranted a) (prevFrameDataRef a) (objectsRef a) (trailRef a)
    (particlesRef a) (lastSpawnTimeRef a) (scoreRef a) (comboRef a)
    (comboTimerRef a) (livesRef a) v (pendingTimeouts a) (nextTimeoutId a)
    (played a) (randomDraws a) (phaseLog a).

Definition set_pendingTimeouts (v : list (nat * Z)) (a : App) : App :=
  mkApp (gameState a) (levelData a) (score a) (combo a) (lives a) (errorMsg a)
    (permissionGranted a) (prevFrameDataRef a) (objectsRef a) (trailRef a)
    (particlesRef a) (lastSpawnTimeRef a) (scoreRef a) (comboRef a)
    (comboTimerRef a) (livesRef a) (swordPosRef a) v (nextTimeoutId a)
    (played a) (randomDraws a) (phaseLog a).

Definition set_nextTimeoutId (v : nat) (a : App) : App :=
  mkApp (gameState a) (levelData a) (score a) (combo a) (lives a) (errorMsg a)
    (permissionGranted a) (prevFrameDataRef a) (objectsRef a) (trailRef a)
    (particlesRef a) (lastSpawnTimeRef a) (scoreRef a) (comboRef a)
    (comboTimerRef a) (livesRef a) (swordPosRef a) (pendingTimeouts a) v
    (played a) (randomDraws a) (phaseLog a).

Definition set_played (v : list Sound) (a : App) : App :=
  mkApp (gameState a) (levelData a) (score a) (combo a) (lives a) (errorMsg a)
    (permissionGranted a) (prevFrameDataRef a) (objectsRef a) (trailRef a)
    (particlesRef a) (lastSpawnTimeRef a) (scoreRef a) (comboRef a)
    (comboTimerRef a) (livesRef a) (swordPosRef a) (pendingTimeouts a)
    (nextTimeoutId a) v (randomDraws a) (phaseLog a).

Definition set_randomDraws (v : nat) (a : App) : App :=
  mkApp (gameState a) (levelData a) (score a) (combo a) (lives a) (errorMsg a)
    (permissionGranted a) (prevFrameDataRef a) (objectsRef a) (trailRef a)
    (particlesRef a) (lastSpawnTimeRef a) (scoreRef a) (comboRef a)
    (comboTimerRef a) (livesRef a) (swordPosRef a) (pendingTimeouts a)
    (nextTimeoutId a) (played a) v (phaseLog a).

Definition set_phaseLog (v : list GameState) (a : App) : App :=
  mkApp (gameState a) (levelData a) (score a) (combo a) (lives a) (errorMsg a)
    (permissionGranted a) (prevFrameDataRef a) (objectsRef a) (trailRef a)
    (particlesRef a) (lastSpawnTimeRef a) (scoreRef a) (comboRef a)
    (comboTimerRef a) (livesRef a) (swordPosRef a) (pendingTimeouts a)
    (nextTimeoutId a) (played a) (randomDraws a) v.


(** ** React setters and browser effects *)

Definition setGameState (g : GameState) (a : App) : App :=
  set_phaseLog (g :: phaseLog a) (set_gameState g a).
Definition setLevelData (l : option LevelData) : App -> App := set_levelData l.
Definition setScore : Z -> App -> App := set_score.
Definition setCombo : Z -> App -> App := set_combo.
Definition setLives : Z -> App -> App := set_lives.
Definition setErrorMsg (m : string) : App -> App := set_errorMsg (Some m).
Definition setPermissionGranted : bool -> App -> App := set_permissionGranted.

(** [playSound]: fire and forget; the cue is all that is kept of it. *)
Definition playSound (s : Sound) (a : App) : App := set_played (s :: played a) a.

(** [setTimeout(callback, delay)] returns a fresh handle.  Every timeout of
    the component carries the same callback, [comboTimeout] below. *)
Definition setTimeout (delay : Z) (a : App) : nat * App :=
  let id := nextTimeoutId a in
  (id, set_nextTimeoutId (S id) (set_pendingTimeouts ((id, delay) :: pendingTimeouts a) a)).

Definition clearTimeout (id : nat) (a : App) : App :=
  set_pendingTimeouts
    (filter (fun t => negb (Nat.eqb (fst t) id)) (pendingTimeouts a)) a.

Definition is_pending (id : nat) (a : App) : bool :=
  existsb (fun t => Nat.eqb (fst t) id) (pendingTimeouts a).

(** ** Game logic helpers *)

(** The callback of the timeout that [incrementCombo] sets. *)
Definition comboTimeout (a : App) : App := setCombo 0 (set_comboRef 0 a).

(** The browser runs a pending timeout: it leaves the pending set and its
    callback runs.  A handle that is not pending does nothing. *)
Definition fireTimeout (id : nat) (a : App) : App :=
  if is_pending id a then comboTimeout (clearTimeout id a) else a.

Definition incrementCombo (a : App) : App :=
  let a := set_comboRef (comboRef a + 1) a in
  let a := setCombo (comboRef a) a in
  let a := if (comboRef a >? 1)%Z then playSound snd_combo a else a in
  let a := match comboTimerRef a with
           | Some (S _ as id) => clearTimeout id a
           | _ => a
           end in
  let (id, a) := setTimeout COMBO_TIMEOUT_MS a in
  set_comboTimerRef (Some id) a.

(** Integers of the pixel scan as numbers. *)
Definition Z2F (z : Z) : float :=
  match z with
  | Z0 => 0%float
  | Zpos _ => of_uint63 (Uint63.of_Z z)
  | Zneg p => (- of_uint63 (Uint63.of_Z (Zpos p)))%float
  end.

Section Program.

(** The host functions the component calls and this file does not define:
    the [n]-th result of [Math.random()], the trigonometry of the splatter,
    [Math.hypot], [Math.floor(v)] as an array index ([None] when it is not
    one), [v.toString(36)] and [JSON.parse].  [JSON_parse text] is [None]
    when [JSON.parse] throws, [Some None] when it yields [null] (as for the
    text null) and [Some (Some level)] when it yields an object of
    [LevelData]'s shape: the cast [as LevelData] of [generateLevel] checks
    nothing, so whatever is parsed goes into [levelData], which is declared
    [LevelData | null]. *)
Variable Math_random : nat -> float.
Variable Math_cos Math_sin : float -> float.
Variable Math_hypot : float -> float -> float.
Variable floor_index : float -> option nat.
Variable toString36 : float -> string.
Variable JSON_parse : string -> option (option LevelData).

Local Open Scope float_scope.

Definition random (a : App) : float * App :=
  (Math_random (randomDraws a), set_randomDraws (S (randomDraws a)) a).

(** One turn of the loop of [createSplatter]. *)
Definition pushParticle (x y : float) (color : string) (a : App) : App :=
  let (r1, a) := random a in
  let angle := r1 * Math_PI * 2 in
  let (r2, a) := random a in
  let speed := r2 * 8 + 3 in
  let (r3, a) := random a in
  set_particlesRef
    (particlesRef a ++
       [mkParticle x y (Math_cos angle * speed) (Math_sin angle * speed) 1 color
          (r3 * 5 + 2)]) a.

Definition createSplatter (x y : float) (color : string) (a : App) : App :=
  Nat.iter 16 (pushParticle x y color) a.

(** *** Vision engine *)

(** What [getImageData] hands over when the video is ready: the width of
    the motion canvas and its RGBA bytes. *)
Record Capture : Type := mkCapture {
  cap_width : Z;
  cap_data : list Z
}.

(** [Math.abs(frameData[i] - prevData[i])]; an index past the end of either
    array reads [undefined] and the difference is NaN ([None]). *)
Definition channelDiff (frameData prevData : list Z) (i : nat) : option Z :=
  match nth_error frameData i, nth_error prevData i with
  | Some c, Some p => Some (Z.abs (c - p))
  | _, _ => None
  end.

(** The test of line 163; a NaN sum is not above the threshold. *)
Definition pixelMoved (frameData prevData : list Z) (i : nat) : bool :=
  match channelDiff frameData prevData i,
        channelDiff frameData prevData (i + 1),
        channelDiff frameData prevData (i + 2) with
  | Some rDiff, Some gDiff, Some bDiff =>
      (rDiff + gDiff + bDiff >? MOTION_THRESHOLD * 3)%Z
  | _, _, _ => false
  end.

(** [pixelIndex % w] and [Math.floor(pixelIndex / w)] for a pixel index and
    a canvas width, both non-negative integers. *)
Definition js_rem (pixelIndex w : Z) : float :=
  if (w =? 0)%Z then nan else Z2F (pixelIndex mod w).
Definition js_floor_div (pixelIndex w : Z) : float :=
  if (w =? 0)%Z then (if (pixelIndex =? 0)%Z then nan else infinity)
  else Z2F (pixelIndex / w).

(** The loop of lines 157-169, from index [i] on.  [i] is a multiple of 4
    throughout, so [i / 4] is exact. *)
Fixpoint scanPixels (fuel : nat) (frameData prevData : list Z) (w : Z)
    (i : nat) (sumX sumY : float) (count : Z) : float * float * Z :=
  match fuel with
  | O => (sumX, sumY, count)
  | S fuel' =>
      if (i <? length frameData)%nat then
        if pixelMoved frameData prevData i then
          let pixelIndex := Z.of_nat (i / 4) in
          scanPixels fuel' frameData prevData w (i + 4)
            (sumX + js_rem pixelIndex w) (sumY + js_floor_div pixelIndex w)
            (count + 1)%Z
        else scanPixels fuel' frameData prevData w (i + 4) sumX sumY count
      else (sumX, sumY, count)
  end.

(** [detectMotion].  [camera] is [None] when there is no video, no canvas,
    no context or the video is not ready. *)
Definition detectMotion (camera : option Capture) (a : App)
    : option (float * float) * App :=
  match camera with
  | None => (None, a)
  | Some cap =>
      let w := cap_width cap in
      let frameData := cap_data cap in
      match prevFrameDataRef a with
      | None => (None, set_prevFrameDataRef (Some frameData) a)
      | Some prevData =>
          let '(sumX, sumY, count) :=
            scanPixels (length frameData) frameData prevData w 0 0 0 0%Z in
          let a := set_prevFrameDataRef (Some frameData) a in
          if (count >? MIN_MOVEMENT_PIXELS)%Z then
            let rawX := (sumX / Z2F count) * DOWNSAMPLE_FACTOR in
            let rawY := (sumY / Z2F count) * DOWNSAMPLE_FACTOR in
            let centerX := 640 / 2 in
            let centerY := 480 / 2 in
            let amplifiedX := centerX + (rawX - centerX) * MOTION_SENSITIVITY in
            let amplifiedY := centerY + (rawY - centerY) * MOTION_SENSITIVITY in
            let amplifiedX := F64.max 0 (F64.min 640 amplifiedX) in
            let amplifiedY := F64.max 0 (F64.min 480 amplifiedY) in
            (Some (amplifiedX, amplifiedY), a)
          else (None, a)
      end
  end.

(** *** Spawner *)

Definition spawnObject (width height : float) (a : App) : App :=
  match levelData a with
  | None => a
  | Some level =>
      let (r, a) := random a in
      let isTarget := 0.35 <? r in
      let list := if isTarget then targets level else distractors level in
      let (r, a) := random a in
      let text :=
        match floor_index (r * Z2F (Z.of_nat (length list))) with
        | Some i => nth i list "undefined"%string
        | None => "undefined"%string
        end in
      let (r_id, a) := random a in
      let (r_x, a) := random a in
      let (r_vx, a) := random a in
      let (r_vy, a) := random a in
      let (r_rot, a) := random a in
      set_objectsRef
        (objectsRef a ++
           [mkGameObject (String.substring 2 9 (toString36 r_id)) text
              (r_x * (width - 200) + 100) (height + 80)
              ((r_vx - 0.5) * 6) (- (r_vy * 8 + 13))
              0 ((r_rot - 0.5) * 0.15)
              isTarget 50 false
              (if isTarget then "#34d399" else "#f87171")%string]) a
  end.

(** *** One tick *)

Record Canvas : Type := mkCanvas {
  cv_width : float;
  cv_height : float
}.

(** Lines 320-337: follow the motion sample and put the new tip first. *)
Definition followMotion (motion : float * float) (a : App) : App :=
  let (sx, sy) := swordPosRef a in
  let sx := sx + (fst motion - sx) * 0.5 in
  let sy := sy + (snd motion - sy) * 0.5 in
  let a := set_swordPosRef (sx, sy) a in
  let a := set_trailRef (mkTrailPoint sx sy 1 :: trailRef a) a in
  match trailRef a with
  | p1 :: _ :: p2 :: _ =>
      let dist := Math_hypot (tp_x p1 - tp_x p2) (tp_y p1 - tp_y p2) in
      if 50 <? dist then playSound snd_slash a else a
  | _ => a
  end.

(** Lines 345-346. *)
Definition fadePoint (p : TrailPoint float) : TrailPoint float :=
  mkTrailPoint (tp_x p) (tp_y p) (tp_life p - TRAIL_DECAY).

Definition decayTrail (trail : list (TrailPoint float)) : list (TrailPoint float) :=
  filter (fun p => 0 <? tp_life p) (map fadePoint trail).

(** The Trail Builder's part of a tick (lines 319-346). *)
Definition trailTick (motion : option (float * float)) (a : App) : App :=
  let a := match motion with
           | Some m => followMotion m a
           | None => a
           end in
  set_trailRef (decayTrail (trailRef a)) a.

(** Lines 348-354. *)
Definition moveParticle (p : Particle) : Particle :=
  mkParticle (p_x p + p_vx p) (p_y p + p_vy p) (p_vx p)
    (p_vy p + PARTICLE_GRAVITY) (p_life p - PARTICLE_DECAY) (p_color p) (p_size p).

Definition stepParticles (ps : list Particle) : list Particle :=
  filter (fun p => 0 <? p_life p) (map moveParticle ps).

(** Lines 357-360. *)
Definition moveObject (obj : GameObject float) : GameObject float :=
  mkGameObject (obj_id obj) (obj_text obj)
    (obj_x obj + obj_vx obj) (obj_y obj + obj_vy obj)
    (obj_vx obj) (obj_vy obj + GRAVITY)
    (obj_rotation obj + obj_vRotation obj) (obj_vRotation obj)
    (obj_isTarget obj) (obj_radius obj) (obj_sliced obj) (obj_color obj).

Definition markSliced (obj : GameObject float) : GameObject float :=
  mkGameObject (obj_id obj) (obj_text obj) (obj_x obj) (obj_y obj)
    (obj_vx obj) (obj_vy obj) (obj_rotation obj) (obj_vRotation obj)
    (obj_isTarget obj) (obj_radius obj) true (obj_color obj).

(** The index at which the loop of lines 364-384 breaks, if it does:
    the first [i < Math.min(5, trail.length - 1)] whose segment
    [(trail[i], trail[i+1])] hits. *)
Definition segmentHits (trail : list (TrailPoint float)) (obj : GameObject float)
    (i : nat) : bool :=
  match nth_error trail i, nth_error trail (i + 1) with
  | Some p1, Some p2 => checkCollision p1 p2 obj
  | _, _ => false
  end.

Definition firstHit (trail : list (TrailPoint float)) (obj : GameObject float)
    : option nat :=
  find (segmentHits trail obj) (seq 0 (Nat.min 5 (length trail - 1))).

(** Lines 369-373. *)
Definition targetHit (a : App) : App :=
  let a := set_scoreRef (scoreRef a + (10 + comboRef a * 2))%Z a in
  let a := setScore (scoreRef a) a in
  let a := incrementCombo a in
  playSound snd_hit a.

(** Lines 375-380. *)
Definition distractorHit (a : App) : App :=
  let a := set_livesRef (livesRef a - 1)%Z a in
  let a := setLives (livesRef a) a in
  let a := set_comboRef 0%Z a in
  let a := setCombo 0%Z a in
  let a := playSound snd_wrong a in
  if (livesRef a <=? 0)%Z then setGameState GAME_OVER a else a.

(** Lines 366-382: what happens to an object at the segment that hits. *)
Definition slice (obj : GameObject float) (a : App) : GameObject float * App :=
  let obj := markSliced obj in
  let a := createSplatter (obj_x obj) (obj_y obj) (obj_color obj) a in
  (obj, if obj_isTarget obj then targetHit a else distractorHit a).

(** The body of [objectsRef.current.forEach] (lines 356-386). *)
Definition updateObject (obj : GameObject float) (a : App) : GameObject float * App :=
  let obj := moveObject obj in
  if (negb (obj_sliced obj) && (2 <? length (trailRef a))%nat)%bool then
    match firstHit (trailRef a) obj with
    | Some _ => slice obj a
    | None => (obj, a)
    end
  else (obj, a).

Fixpoint forEachObject (objs : list (GameObject float)) (a : App)
    : list (GameObject float) * App :=
  match objs with
  | [] => ([], a)
  | obj :: rest =>
      let (obj', a) := updateObject obj a in
      let (rest', a) := forEachObject rest a in
      (obj' :: rest', a)
  end.

(** [gameLoop], without the drawing (lines 397-459 change no state that
    the logic reads) and without the rescheduling of the callback. *)
Definition gameLoop (time : float) (canvas : option Canvas)
    (camera : option Capture) (a : App) : App :=
  match canvas with
  | None => a
  | Some cv =>
      if negb (GameState_eqb (gameState a) PLAYING) then a
      else
        let (motion, a) := detectMotion camera a in
        let a := trailTick motion a in
        let a := set_particlesRef (stepParticles (particlesRef a)) a in
        let (objs, a) := forEachObject (objectsRef a) a in
        let a := set_objectsRef
                   (filter (fun obj => (obj_y obj <? cv_height cv + 100)
                                       && negb (obj_sliced obj))%bool objs) a in
        if SPAWN_RATE <? time - lastSpawnTimeRef a then
          set_lastSpawnTimeRef time (spawnObject (cv_width cv) (cv_height cv) a)
        else a
  end.

(** *** Startup *)

(** What [getUserMedia] does. *)
Inductive CameraOutcome : Type := StreamGranted | StreamRefused.

(** [startCamera] up to the end of its [await]: the handler it installs
    runs later, as [onloadedmetadata]. *)
Definition startCamera (cam : CameraOutcome) (a : App) : App :=
  match cam with
  | StreamGranted => a
  | StreamRefused =>
      setGameState ERROR (setErrorMsg "Camera access required." a)
  end.

Definition onloadedmetadata (a : App) : App := setPermissionGranted true a.

(** What [ai.models.generateContent] does: it throws, or it answers with a
    response whose [text] may be absent. *)
Inductive ServiceReply : Type :=
| ServiceThrows (error : string)
| ServiceResponds (text : option string).

Inductive Outcome (A : Type) : Type :=
| Returned (v : A)
| Thrown (error : string).
Arguments Returned {A} _.
Arguments Thrown {A} _.

(** [generateLevel] of [gemini.ts]; the [catch] logs and throws again.
    What it returns is what [JSON.parse] yields, [null] included. *)
Definition generateLevel (reply : ServiceReply) : Outcome (option LevelData) :=
  match reply with
  | ServiceThrows e => Thrown e
  | ServiceResponds None => Thrown "No response from Sensei"
  | ServiceResponds (Some text) =>
      if String.eqb text "" then Thrown "No response from Sensei"
      else match JSON_parse text with
           | Some level => Returned level
           | None => Thrown "SyntaxError"
           end
  end.

(** [initializeGame] runs in three stretches, cut at its two [await]s: the
    first line, up to [await startCamera()] (or to [await generateLevel()]
    when the permission is already granted); the end of [startCamera], up to
    [await generateLevel()]; and the rest of the [try], or the [catch]. *)
Definition initializeGame_click (a : App) : App := setGameState LOADING_LEVEL a.

Definition initializeGame_level (outcome : Outcome (option LevelData)) (a : App) : App :=
  match outcome with
  | Returned level =>
      let a := setLevelData level a in
      let a := setScore 0%Z a in
      let a := setCombo 0%Z a in
      let a := setLives 3%Z a in
      let a := set_scoreRef 0%Z a in
      let a := set_comboRef 0%Z a in
      let a := set_livesRef 3%Z a in
      let a := set_objectsRef [] a in
      let a := set_trailRef [] a in
      let a := set_particlesRef [] a in
      setGameState PLAYING a
  | Thrown _ =>
      setGameState ERROR (setErrorMsg "AI Dojo disconnected." a)
  end.

(** [initializeGame] when nothing else happens while it waits. *)
Definition initializeGame (cam : CameraOutcome) (reply : ServiceReply) (a : App) : App :=
  let granted := permissionGranted a in
  let a := initializeGame_click a in
  let a := if granted then a else startCamera cam a in
  initializeGame_level (generateLevel reply) a.

End Program.

Arguments Returned {A} _.
Arguments Thrown {A} _.

(** The component as it is mounted: the arguments of [useState] and
    [useRef]. *)
Definition mounted : App :=
  {| gameState := MENU; levelData := None; score := 0; combo := 0; lives := 3;
     errorMsg := None; permissionGranted := false;
     prevFrameDataRef := None; objectsRef := []; trailRef := [];
     particlesRef := []; lastSpawnTimeRef := 0%float;
     scoreRef := 0; comboRef := 0; comboTimerRef := None; livesRef := 3;
     swordPosRef := (320%float, 240%float);
     pendingTimeouts := []; nextTimeoutId := 1; played := [];
     randomDraws := 0; phaseLog := [] |}.

(** ** The wording of the specification

    Definitions that follow the specification's sentences, to be compared
    with the program above. *)

Module Spec.

Section Geometry.
Context {N : Type} `{JSNumber N}.
Local Open Scope js_scope.

Definition Point : Type := (N * N)%type.

Definition vsub (a b : Point) : Point := (fst a - fst b, snd a - snd b).
Definition dot (a b : Point) : N := fst a * fst b + snd a * snd b.

(** "project the object's center onto the segment" *)
Definition projection_parameter (a b c : Point) : N :=
  dot (vsub c a) (vsub b a) / dot (vsub b a) (vsub b a).

(** "clamp the projection parameter to [0,1]" *)
Definition clamp01 (t : N) : N := Math_max num_zero (Math_min num_one t).

(** "closest point on the finite segment, not the infinite line" *)
Definition point_at (a b : Point) (t : N) : Point :=
  (fst a + t * fst (vsub b a), snd a + t * snd (vsub b a)).
Definition closest_point (a b c : Point) : Point :=
  point_at a b (clamp01 (projection_parameter a b c)).

Definition sq_dist (a b : Point) : N := dot (vsub a b) (vsub a b).

(** "compare squared distance from that closest point to the object's
    radius squared" *)
Definition hit (a b c : Point) (radius : N) : bool :=
  sq_dist c (closest_point a b c) <? radius * radius.

End Geometry.

(** "for every pixel, compute the sum of absolute per-channel differences
    between current and previous frame; a pixel qualifies if this sum
    exceeds a noise-rejection threshold".  Pixel [k] has its red, green and
    blue samples at [4k], [4k+1] and [4k+2]; a sample that is missing from
    either frame leaves the pixel without a sum. *)
Definition pixels (frame : list Z) : nat := Nat.div (length frame + 3) 4.

Definition diff_sum (cur prev : list Z) (k : nat) : option Z :=
  match nth_error cur (4 * k), nth_error cur (4 * k + 1), nth_error cur (4 * k + 2),
        nth_error prev (4 * k), nth_error prev (4 * k + 1), nth_error prev (4 * k + 2) with
  | Some r, Some g, Some b, Some r', Some g', Some b' =>
      Some (Z.abs (r - r') + Z.abs (g - g') + Z.abs (b - b'))%Z
  | _, _, _, _, _, _ => None
  end.

Definition qualifies (cur prev : list Z) (k : nat) : bool :=
  match diff_sum cur prev k with
  | Some s => (35 * 3 <? s)%Z
  | None => false
  end.

Definition qualifying_pixels (cur prev : list Z) : nat :=
  length (filter (qualifies cur prev) (seq 0 (pixels cur))).

(** "decrement every existing Trail Point's life by a fixed decay rate":
    the life of a point that has been through [k] decay steps. *)
Definition life_after (k : nat) : float :=
  Nat.iter k (fun life => (life - 0.12)%float) 1%float.

(** "the level-content fetch fails (throws, or the service returns an
    empty/absent response)" *)
Definition fetch_fails (reply : ServiceReply) : Prop :=
  match reply with
  | ServiceThrows _ => True
  | ServiceResponds None => True
  | ServiceResponds (Some text) => text = ""%string
  end.

End Spec.

(** ** Invariant of the trail *)

(** A trail whose points, newest first, have been through strictly
    increasing numbers of decay steps, from [lo] up to 8. *)
Inductive aged_from : nat -> list (TrailPoint float) -> Prop :=
| aged_nil (lo : nat) : aged_from lo []
| aged_cons (lo k : nat) (p : TrailPoint float) (trail : list (TrailPoint float)) :
    (lo <= k)%nat -> (k <= 8)%nat ->
    tp_life p = Spec.life_after k ->
    aged_from (S k) trail ->
    aged_from lo (p :: trail).

(** The position of a trail point and the center of an object, as points. *)
Definition pos {N} (p : TrailPoint N) : N * N := (tp_x p, tp_y p).
Definition center {N} (obj : GameObject N) : N * N := (obj_x obj, obj_y obj).

(** Trail points and objects whose numbers are rationals, as exact numbers. *)
Definition exact_point (p : TrailPoint Q) : TrailPoint xnum :=
  mkTrailPoint (XFin (tp_x p)) (XFin (tp_y p)) (XFin (tp_life p)).
Definition exact_object (obj : GameObject Q) : GameObject xnum :=
  mkGameObject (obj_id obj) (obj_text obj) (XFin (obj_x obj)) (XFin (obj_y obj))
    (XFin (obj_vx obj)) (XFin (obj_vy obj)) (XFin (obj_rotation obj))
    (XFin (obj_vRotation obj)) (obj_isTarget obj) (XFin (obj_radius obj))
    (obj_sliced obj) (obj_color obj).

(** The slices reported so far: every slice plays exactly one of the cues
    [hit] and [wrong] (lines 373 and 379), and nothing else plays them. *)
Definition is_slice_cue (s : Sound) : bool :=
  match s with
  | snd_hit | snd_wrong => true
  | _ => false
  end.
Definition slicesReported (a : App) : nat := length (filter is_slice_cue (played a)).

(** ** Sample values *)

Definition bubble {N} `{JSNumber N} (isTarget : bool) (x y r : N) : GameObject N :=
  mkGameObject "k3j9x0q2a" "7" x y num_zero num_zero num_zero num_zero isTarget r false
    (if isTarget then "#34d399" else "#f87171").

Definition pt {N} `{JSNumber N} (x y : N) : TrailPoint N := mkTrailPoint x y num_one.

(** A host whose [Math.random()] always answers one half. *)
Definition half (_ : nat) : float := 0.5%float.
Definition no_trig (v : float) : float := v.
Definition no_hypot (a b : float) : float := 0%float.
Definition no_index (v : float) : option nat := Some 0%nat.
Definition no_digits (v : float) : string := "0.k3j9x0q2a".
Definition no_json (s : string) : option (option LevelData) := None.

(** A round in play, with a blade along the line y = 100. *)
Definition sample_trail : list (TrailPoint float) :=
  [pt 0 100; pt 200 100; pt 300 100]%float.
Definition in_play : App := set_trailRef sample_trail (set_gameState PLAYING mounted).
Definition target_on_blade : GameObject float := (bubble true 100 100 50)%float.
Definition distractor_on_blade : GameObject float := (bubble false 100 100 50)%float.

(** A particle at rest. *)
Definition still_particle : Particle :=
  mkParticle 100 100 0 0 1 "#34d399" 4.

(** Two frames of two pixels: all black, and the first pixel gone white. *)
Definition dark_frame : list Z := [0; 0; 0; 255; 0; 0; 0; 255]%Z.
Definition flash_frame : list Z := [255; 255; 255; 255; 0; 0; 0; 255]%Z.
Definition seeded (frame : list Z) : App := set_prevFrameDataRef (Some frame) in_play.

(** Twenty motion samples in a row. *)
Definition sweep : list (float * float) :=
  map (fun k => (Z2F (Z.of_nat k) * 30, 240)%float) (seq 0 20).

(** The round in play with one target lying on the blade, and the canvas. *)
Definition one_target : App := set_objectsRef [target_on_blade] in_play.
Definition playfield : Canvas := mkCanvas 640 480.

(** The bubble at (1,58) of radius 50, with rational numbers. *)
Definition tangent_bubbleQ : GameObject Q :=
  mkGameObject "k3j9x0q2a" "7" 1 58 0 0 0 0 true 50 false "#34d399".

(** ** One object over successive turns *)

(** The slices reported for one object over successive turns of the
    collision pass, each turn taking the object the turn before returned,
    whatever state each turn starts from. *)
Fixpoint slicesOver (Math_random : nat -> float) (Math_cos Math_sin : float -> float)
    (obj : GameObject float) (states : list App) : nat :=
  match states with
  | [] => 0
  | a :: rest =>
      let (obj', a') := updateObject Math_random Math_cos Math_sin obj a in
      (slicesReported a' - slicesReported a)
      + slicesOver Math_random Math_cos Math_sin obj' rest
  end.

(** ** The component as a whole *)

(** The cues of one kind played so far. *)
Definition Sound_eqb (s1 s2 : Sound) : bool :=
  match s1, s2 with
  | snd_slash, snd_slash | snd_hit, snd_hit | snd_wrong, snd_wrong
  | snd_combo, snd_combo => true
  | _, _ => false
  end.
Definition cuesPlayed (s : Sound) (a : App) : nat :=
  length (filter (Sound_eqb s) (played a)).

(** The component and what it is waiting for.  A run of [initializeGame]
    is suspended twice, at [await startCamera()] and at
    [await generateLevel()]; while it is suspended anything else can happen,
    another click included: after a refused camera the error screen with its
    button is up while the first run still waits for the level.  The runs
    that wait differ in nothing but the place they wait at, so two counters
    hold them.  [streamAttached] says that [startCamera] has given the video
    a stream and installed the [loadedmetadata] handler. *)
Record Component : Type := mkComponent {
  state : App;
  awaitingCamera : nat;
  awaitingLevel : nat;
  streamAttached : bool
}.

Definition mountedComponent : Component :=
  {| state := mounted; awaitingCamera := 0; awaitingLevel := 0; streamAttached := false |}.

Definition with_state (a : App) (c : Component) : Component :=
  {| state := a; awaitingCamera := awaitingCamera c; awaitingLevel := awaitingLevel c;
     streamAttached := streamAttached c |}.

(** What happens to the mounted component: a click on the button of the
    menu, game-over or error screen (the only screens that have one, all
    three wired to [initializeGame]); [getUserMedia] settling for a run that
    waits for it; the content service settling for a run that waits for it;
    the video's [loadedmetadata] event; an animation frame; a timeout that
    fires.  Each runs to its end before the next starts. *)
Inductive Event : Type :=
| Click
| CameraSettles (cam : CameraOutcome)
| LevelSettles (reply : ServiceReply)
| MetadataLoaded
| AnimationFrame (time : float) (canvas : option Canvas) (camera : option Capture)
| TimeoutFires (id : nat).

Definition has_button (g : GameState) : bool :=
  match g with
  | MENU | GAME_OVER | ERROR => true
  | LOADING_LEVEL | PLAYING => false
  end.

Definition is_granted (cam : CameraOutcome) : bool :=
  match cam with
  | StreamGranted => true
  | StreamRefused => false
  end.

Section Component.
Variable Math_random : nat -> float.
Variable Math_cos Math_sin : float -> float.
Variable Math_hypot : float -> float -> float.
Variable floor_index : float -> option nat.
Variable toString36 : float -> string.
Variable JSON_parse : string -> option (option LevelData).

Definition handle (ev : Event) (c : Component) : Component :=
  match ev with
  | Click =>
      if has_button (gameState (state c)) then
        if permissionGranted (state c) then
          {| state := initializeGame_click (state c);
             awaitingCamera := awaitingCamera c;
             awaitingLevel := S (awaitingLevel c);
             streamAttached := streamAttached c |}
        else
          {| state := initializeGame_click (state c);
             awaitingCamera := S (awaitingCamera c);
             awaitingLevel := awaitingLevel c;
             streamAttached := streamAttached c |}
      else c
  | CameraSettles cam =>
      match awaitingCamera c with
      | O => c
      | S waiting =>
          {| state := startCamera cam (state c);
             awaitingCamera := waiting;
             awaitingLevel := S (awaitingLevel c);
             streamAttached := (streamAttached c || is_granted cam)%bool |}
      end
  | LevelSettles reply =>
      match awaitingLevel c with
      | O => c
      | S waiting =>
          {| state := initializeGame_level (generateLevel JSON_parse reply) (state c);
             awaitingCamera := awaitingCamera c;
             awaitingLevel := waiting;
             streamAttached := streamAttached c |}
      end
  | MetadataLoaded =>
      if streamAttached c then with_state (onloadedmetadata (state c)) c else c
  | AnimationFrame time canvas camera =>
      with_state
        (gameLoop Math_random Math_cos Math_sin Math_hypot floor_index toString36
           time canvas camera (state c)) c
  | TimeoutFires id => with_state (fireTimeout id (state c)) c
  end.

Definition run (events : list Event) (c : Component) : Component :=
  fold_left (fun s ev => handle ev s) events c.

End Component.

(** At most one timeout is pending, and it is the one [comboTimerRef]
    names; handles start at 1. *)
Definition timers_ok (a : App) : Prop :=
  (1 <= nextTimeoutId a)%nat
  /\ (pendingTimeouts a = []
      \/ exists id, comboTimerRef a = Some id /\ (1 <= id < nextTimeoutId a)%nat
                    /\ pendingTimeouts a = [(id, COMBO_TIMEOUT_MS)]).

(** The displayed round is the round of the refs, score and combo are not
    negative, lives is at most 3, and the phase agrees with lives. *)
Definition round_ok (a : App) : Prop :=
  (score a = scoreRef a /\ combo a = comboRef a /\ lives a = livesRef a)
  /\ (0 <= scoreRef a /\ 0 <= comboRef a /\ livesRef a <= 3)%Z
  /\ (gameState a = PLAYING -> 1 <= livesRef a)%Z
  /\ (gameState a = GAME_OVER -> livesRef a <= 0)%Z.

Definition alive_particles (ps : list Particle) : Prop :=
  Forall (fun p => (0 <? p_life p)%float = true) ps.
Definition unsliced (objs : list (GameObject float)) : Prop :=
  Forall (fun obj => obj_sliced obj = false) objs.

Definition healthy (a : App) : Prop :=
  round_ok a /\ timers_ok a
  /\ aged_from 1 (trailRef a) /\ alive_particles (particlesRef a)
  /\ unsliced (objectsRef a).

(** Two states with the same round: phase, level, messages, displayed and
    ref'd score, combo and lives, and timeouts. *)
Definition same_round (a b : App) : Prop :=
  gameState a = gameState b /\ levelData a = levelData b
  /\ errorMsg a = errorMsg b /\ permissionGranted a = permissionGranted b
  /\ phaseLog a = phaseLog b
  /\ score a = score b /\ combo a = combo b /\ lives a = lives b
  /\ scoreRef a = scoreRef b /\ comboRef a = comboRef b /\ livesRef a = livesRef b
  /\ comboTimerRef a = comboTimerRef b /\ pendingTimeouts a = pendingTimeouts b
  /\ nextTimeoutId a = nextTimeoutId b.

(** The state after a splatter of [burst]. *)
Definition splattered (burst : list Particle) (a : App) : App :=
  set_particlesRef (particlesRef a ++ burst) (set_randomDraws (48 + randomDraws a) a).

(** A particle of a splatter at [(x, y)]. *)
Definition fresh_particle (x y : float) (color : string) (p : Particle) : Prop :=
  p_x p = x /\ p_y p = y /\ p_life p = 1%float /\ p_color p = color.

Definition keeps (cv : Canvas) (obj : GameObject float) : bool :=
  ((obj_y obj <? cv_height cv + 100)%float && negb (obj_sliced obj))%bool.


Definition on_screen (hi v : float) : Prop :=
  is_nan v = true \/ ((0 <=? v)%float = true /\ (v <=? hi)%float = true).

Definition white_frame : list Z := repeat 255%Z (4 * 48).
Definition black_frame : list Z := repeat 0%Z (4 * 48).


(** Score up, lives down, combo not negative. *)
Definition advances (a b : App) : Prop :=
  (0 <= comboRef a -> 0 <= comboRef b /\ scoreRef a <= scoreRef b /\ livesRef b <= livesRef a)%Z.


(** Lives lost are cues [wrong] played; particles gained are sixteen per
    slice. *)
Definition accounted (a b : App) : Prop :=
  (livesRef b + Z.of_nat (cuesPlayed snd_wrong b)
   = livesRef a + Z.of_nat (cuesPlayed snd_wrong a))%Z
  /\ (slicesReported a <= slicesReported b)%nat
  /\ length (particlesRef b)
     = (length (particlesRef a) + 16 * (slicesReported b - slicesReported a))%nat.


(** A tick leaves level, message and permission alone, and moves the phase
    only to GameOver, with no life left. *)
Definition stays (a b : App) : Prop :=
  (livesRef b <= livesRef a)%Z
  /\ levelData b = levelData a /\ errorMsg b = errorMsg a
  /\ permissionGranted b = permissionGranted a
  /\ (gameState b = gameState a \/ (gameState b = GAME_OVER /\ (livesRef b <= 0)%Z)).


(** [l1] is [l2] with some elements left out: the order is kept and no
    element is used twice. *)
Inductive subseq {A : Type} : list A -> list A -> Prop :=
| subseq_nil : subseq [] []
| subseq_skip (x : A) (l1 l2 : list A) : subseq l1 l2 -> subseq l1 (x :: l2)
| subseq_keep (x : A) (l1 l2 : list A) : subseq l1 l2 -> subseq (x :: l1) (x :: l2).

Definition particle_life_after (k : nat) : float :=
  Nat.iter k (fun life => (life - PARTICLE_DECAY)%float) 1%float.



(** ** Drawing the blade *)

(** The calls and property writes that [drawBlade] makes on the canvas
    context, in order. *)
Inductive CanvasCall : Type :=
| ctx_save
| ctx_restore
| ctx_lineCap (v : string)
| ctx_lineJoin (v : string)
| ctx_globalCompositeOperation (v : string)
| ctx_shadowBlur (v : float)
| ctx_shadowColor (v : string)
| ctx_beginPath
| ctx_moveTo (x y : float)
| ctx_quadraticCurveTo (cpx cpy x y : float)
| ctx_lineTo (x y : float)
| ctx_strokeStyle (v : string)
| ctx_lineWidth (v : float)
| ctx_stroke.

Definition BLADE_COLOR_CORE : string := "#ffffff".
Definition BLADE_COLOR_OUTER : string := "#0ea5e9".

(** The curve of one turn of the loop of lines 286-292, from [p1] towards
    the newer [p2]. *)
Definition bladeCurve (p1 p2 : TrailPoint float) : CanvasCall :=
  ctx_quadraticCurveTo (tp_x p1) (tp_y p1)
    ((tp_x p1 + tp_x p2) / 2)%float ((tp_y p1 + tp_y p2) / 2)%float.

(** The turns [i], [i - 1], ..., 1 of that loop.  [points[i]] and
    [points[i - 1]] are inside the array for every [i] the loop reaches. *)
Fixpoint bladeCurves (points : list (TrailPoint float)) (i : nat) : list CanvasCall :=
  match i with
  | O => []
  | S j =>
      match nth_error points (S j), nth_error points j with
      | Some p1, Some p2 => bladeCurve p1 p2 :: bladeCurves points j
      | _, _ => []
      end
  end.

(** [drawBlade] (lines 266-307), on the trail it reads. *)
Definition drawBlade (points : list (TrailPoint float)) : list CanvasCall :=
  if (length points <? 3)%nat then []
  else
    match nth_error points (length points - 1), nth_error points 0 with
    | Some oldest, Some tip =>
        [ctx_save; ctx_lineCap "round"; ctx_lineJoin "round";
         ctx_globalCompositeOperation "lighter";
         ctx_shadowBlur 20; ctx_shadowColor BLADE_COLOR_OUTER;
         ctx_beginPath; ctx_moveTo (tp_x oldest) (tp_y oldest)]
        ++ bladeCurves points (length points - 2)
        ++ [ctx_lineTo (tp_x tip) (tp_y tip);
            ctx_strokeStyle BLADE_COLOR_OUTER; ctx_lineWidth 12; ctx_stroke;
            ctx_lineWidth 4; ctx_strokeStyle BLADE_COLOR_CORE; ctx_stroke;
            ctx_restore]
    | _, _ => []
    end.

(** The curves along a path given oldest point first: one per point that
    has a newer neighbour, ending midway to that neighbour. *)
Fixpoint curvesAlong (path : list (TrailPoint float)) : list CanvasCall :=
  match path with
  | p :: (p' :: _) as newer => bladeCurve p p' :: curvesAlong newer
  | _ => []
  end.

Definition is_curve (c : CanvasCall) : bool :=
  match c with
  | ctx_quadraticCurveTo _ _ _ _ => true
  | _ => false
  end.
Definition is_stroke (c : CanvasCall) : bool :=
  match c with
  | ctx_stroke => true
  | _ => false
  end.

(** ** More sample values *)

(** The round in play with an empty trail and a target in the air. *)
Definition still_round : App := set_trailRef [] one_target.

(** One life left and two distractors on the blade. *)
Definition two_distractors : App :=
  set_objectsRef [distractor_on_blade; distractor_on_blade]
    (set_lives 1 (set_livesRef 1 in_play)).

(** A level and a parser that knows two texts. *)
Definition fruit_level : LevelData :=
  mkLevelData "Fruit Ninja" "Slash the RED fruits!" ["apple"; "cherry"]%string ["lime"; "kiwi"]%string.
Definition fruit_json (text : string) : option (option LevelData) :=
  if String.eqb text "fruit" then Some (Some fruit_level)
  else if String.eqb text "null" then Some None
  else None.

(** A round with a level, a target in the air and no blade. *)
Definition spawning_round : App := set_levelData (Some fruit_level) still_round.

(** A segment and a bubble with rational numbers. *)
Definition blade_from : TrailPoint Q := mkTrailPoint 0 100 1.
Definition blade_to : TrailPoint Q := mkTrailPoint 200 100 1.
Definition bubbleQ : GameObject Q :=
  mkGameObject "k3j9x0q2a" "7" 100 130 0 0 0 0 true 50 false "#34d399".

(** * Theorems *)

(** ** The collision test and the specification's wording *)

Section CollisionFacts.
Context {N : Type} `{JSNumber N}.

(** Whatever the arithmetic, [checkCollision] is the test the specification
    words: the clamped projection gives the closest point, and the squared
    distance to it is compared with the squared radius. *)
Lemma checkCollision_hit (p1 p2 : TrailPoint N) (obj : GameObject N) :
  checkCollision p1 p2 obj = Spec.hit (pos p1) (pos p2) (center obj) (obj_radius obj).
Proof. reflexivity. Qed.

End CollisionFacts.


(** ** The collision test in exact arithmetic *)

Module ExactFacts.
Import Exact.

Lemma Qltb_lt (p q : Q) : Qltb p q = true <-> (p < q)%Q.
Proof.
  unfold Qltb. rewrite Qlt_alt. destruct (p ?= q)%Q; split; congruence.
Qed.

Lemma Qltb_ge (p q : Q) : Qltb p q = false <-> (q <= p)%Q.
Proof.
  rewrite <- Bool.not_true_iff_false, Qltb_lt. split.
  - apply Qnot_lt_le.
  - apply Qle_not_lt.
Qed.

Lemma Qltb_compat (p p' q q' : Q) :
  (p == p')%Q -> (q == q')%Q -> Qltb p q = Qltb p' q'.
Proof. intros Hp Hq. unfold Qltb. rewrite Hp, Hq. reflexivity. Qed.

Lemma is_zero_true (q : Q) : is_zero q = true <-> (q == 0)%Q.
Proof. apply Qeq_bool_iff. Qed.

Lemma is_zero_compat (p q : Q) : (p == q)%Q -> is_zero p = is_zero q.
Proof.
  intros Hpq. destruct (is_zero q) eqn:Hq.
  - apply is_zero_true. rewrite Hpq. now apply is_zero_true.
  - apply Bool.not_true_iff_false. intros Hp. apply is_zero_true in Hp.
    rewrite Hpq in Hp. apply is_zero_true in Hp. congruence.
Qed.

Lemma sq_nonneg (a : Q) : (0 <= a * a)%Q.
Proof. nra. Qed.

Lemma sum_squares_zero (a b : Q) : (a * a + b * b == 0)%Q -> (a == 0 /\ b == 0)%Q.
Proof. intros Hab. split; nra. Qed.

Lemma clamp01Q_cases (t : Q) :
  ((t <= 0 /\ clamp01Q t = 0) \/ (0 < t < 1 /\ clamp01Q t = t)
   \/ (1 <= t /\ clamp01Q t = 1))%Q.
Proof.
  unfold clamp01Q.
  destruct (Qltb t 1) eqn:H1.
  - destruct (Qltb 0 t) eqn:H0.
    + right; left. apply Qltb_lt in H1, H0. auto.
    + left. apply Qltb_ge in H0. auto.
  - apply Qltb_ge in H1. right; right. split; [assumption|].
    reflexivity.
Qed.

Lemma clamp01Q_compat (s t : Q) : (s == t)%Q -> (clamp01Q s == clamp01Q t)%Q.
Proof.
  intros Hst.
  destruct (clamp01Q_cases s) as [[Hs ->]|[[Hs ->]|[Hs ->]]];
    destruct (clamp01Q_cases t) as [[Ht ->]|[[Ht ->]|[Ht ->]]]; lra.
Qed.

Lemma clamp01Q_flip (t : Q) : (clamp01Q (1 - t) == 1 - clamp01Q t)%Q.
Proof.
  destruct (clamp01Q_cases t) as [[Ht ->]|[[Ht ->]|[Ht ->]]];
    destruct (clamp01Q_cases (1 - t)) as [[Hs ->]|[[Hs ->]|[Hs ->]]]; lra.
Qed.

Lemma add_fin (p q : Q) : add (XFin p) (XFin q) = XFin (p + q).
Proof. reflexivity. Qed.
Lemma sub_fin (p q : Q) : sub (XFin p) (XFin q) = XFin (p - q).
Proof. reflexivity. Qed.
Lemma mul_fin (p q : Q) : mul (XFin p) (XFin q) = XFin (p * q).
Proof. reflexivity. Qed.
Lemma lt_fin (p q : Q) : lt (XFin p) (XFin q) = Qltb p q.
Proof. reflexivity. Qed.
Lemma clamp_fin (t : Q) : max (XFin 0) (min (XFin 1) (XFin t)) = XFin (clamp01Q t).
Proof.
  unfold clamp01Q, min, max, lt. destruct (Qltb t 1); destruct (Qltb 0 _); reflexivity.
Qed.

(** The collision test on rational inputs: no hit on a segment of length
    zero, and otherwise the comparison of the squared distance at the
    clamped projection. *)
Lemma checkCollision_fin (p1 p2 : TrailPoint Q) (obj : GameObject Q) :
  checkCollision (exact_point p1) (exact_point p2) (exact_object obj) =
  let dx := (tp_x p2 - tp_x p1)%Q in
  let dy := (tp_y p2 - tp_y p1)%Q in
  let lenSq := (dx * dx + dy * dy)%Q in
  let t := (((obj_x obj - tp_x p1) * dx + (obj_y obj - tp_y p1) * dy) / lenSq)%Q in
  if is_zero lenSq then false
  else Qltb (sq_dist_at (tp_x p1) (tp_y p1) (tp_x p2) (tp_y p2) (obj_x obj) (obj_y obj)
               (clamp01Q t))
         (obj_radius obj * obj_radius obj).
Proof.
  destruct p1 as [x1 y1 l1], p2 as [x2 y2 l2].
  unfold checkCollision, exact_point, exact_object, pow2.
  cbn [tp_x tp_y obj_x obj_y obj_radius].
  cbn [num_add num_sub num_mul num_div num_lt Math_min Math_max num_zero num_one
       xnum_JSNumber].
  rewrite !sub_fin, !mul_fin, !add_fin.
  unfold div. cbv zeta.
  destruct (is_zero ((x2 - x1) * (x2 - x1) + (y2 - y1) * (y2 - y1))) eqn:Hlen.
  - apply is_zero_true, sum_squares_zero in Hlen. destruct Hlen as [Hdx Hdy].
    assert (Hnum : is_zero ((obj_x obj - x1) * (x2 - x1) + (obj_y obj - y1) * (y2 - y1))
                   = true).
    { apply is_zero_true. rewrite Hdx, Hdy. ring. }
    rewrite Hnum. reflexivity.
  - rewrite clamp_fin, !mul_fin, !add_fin, !sub_fin, !mul_fin, !add_fin, lt_fin.
    reflexivity.
Qed.

(** In exact arithmetic the clamped projection is the nearest point of the
    segment: no point of the segment is closer to the center. *)
Lemma clamped_projection_is_nearest (x1 y1 x2 y2 ox oy s : Q) :
  let lenSq := ((x2 - x1) * (x2 - x1) + (y2 - y1) * (y2 - y1))%Q in
  let t := (((ox - x1) * (x2 - x1) + (oy - y1) * (y2 - y1)) / lenSq)%Q in
  (~ lenSq == 0 -> 0 <= s <= 1 ->
   sq_dist_at x1 y1 x2 y2 ox oy (clamp01Q t) <= sq_dist_at x1 y1 x2 y2 ox oy s)%Q.
Proof.
  intros lenSq t Hlen Hs.
  assert (Hpos : (0 < lenSq)%Q).
  { assert (H0 : (0 <= (x2 - x1) * (x2 - x1) + (y2 - y1) * (y2 - y1))%Q).
    { pose proof (sq_nonneg (x2 - x1)). pose proof (sq_nonneg (y2 - y1)). lra. }
    fold lenSq in H0.
    apply Qle_lteq in H0. destruct H0 as [H0|H0]; [assumption|].
    symmetry in H0. contradiction. }
  assert (Ht : (t * lenSq == (ox - x1) * (x2 - x1) + (oy - y1) * (y2 - y1))%Q).
  { unfold t. field. assumption. }
  assert (Hdiff : forall u v : Q,
    (sq_dist_at x1 y1 x2 y2 ox oy v - sq_dist_at x1 y1 x2 y2 ox oy u
     == lenSq * ((v - u) * (v + u - 2 * t)))%Q).
  { intros u v. unfold sq_dist_at.
    setoid_replace (lenSq * ((v - u) * (v + u - 2 * t)))%Q
      with (lenSq * (v - u) * (v + u) - 2 * (v - u) * (t * lenSq))%Q by ring.
    rewrite Ht. unfold lenSq. ring. }
  specialize (Hdiff (clamp01Q t) s).
  assert (Hprod : (0 <= (s - clamp01Q t) * (s + clamp01Q t - 2 * t))%Q).
  { destruct (clamp01Q_cases t) as [[Hc ->]|[[Hc ->]|[Hc ->]]].
    - apply Qmult_le_0_compat; lra.
    - setoid_replace (s + t - 2 * t)%Q with (s - t)%Q by ring. apply sq_nonneg.
    - setoid_replace ((s - 1) * (s + 1 - 2 * t))%Q
        with ((1 - s) * (2 * t - (s + 1)))%Q by ring.
      apply Qmult_le_0_compat; lra. }
  pose proof (Qmult_le_0_compat _ _ (Qlt_le_weak _ _ Hpos) Hprod) as Hge.
  rewrite <- Hdiff in Hge. lra.
Qed.

Lemma sq_dist_at_flip (x1 y1 x2 y2 ox oy t t' : Q) :
  (t' == 1 - t)%Q ->
  (sq_dist_at x2 y2 x1 y1 ox oy t' == sq_dist_at x1 y1 x2 y2 ox oy t)%Q.
Proof. intros Ht. unfold sq_dist_at. rewrite Ht. ring. Qed.

End ExactFacts.



(** ** Segments of length zero *)

Module F64Facts.
Import F64.
Local Open Scope float_scope.

Lemma sub_diag (x : float) : zero_or_NaN (x - x).
Proof.
  unfold zero_or_NaN. rewrite sub_spec. unfold SF64sub, SFsub.
  destruct (Prim2SF x) as [s|s| |s m e].
  - destruct s; exact I.
  - destruct s; exact I.
  - exact I.
  - cbv zeta. rewrite Z.sub_diag. exact I.
Qed.

Lemma mul_zero_or_NaN_r (a d : float) : zero_or_NaN d -> zero_or_NaN (a * d).
Proof.
  unfold zero_or_NaN. rewrite mul_spec. unfold SF64mul, SFmul.
  destruct (Prim2SF d) as [sd|sd| |sd md ed]; try contradiction; intros _;
    destruct (Prim2SF a) as [sa|sa| |sa ma ea]; exact I.
Qed.

Lemma add_zero_or_NaN (a b : float) :
  zero_or_NaN a -> zero_or_NaN b -> zero_or_NaN (a + b).
Proof.
  unfold zero_or_NaN. rewrite add_spec. unfold SF64add, SFadd.
  destruct (Prim2SF a) as [sa|sa| |sa ma ea]; try contradiction; intros _;
    destruct (Prim2SF b) as [sb|sb| |sb mb eb]; try contradiction; intros _;
    try exact I.
  destruct sa, sb; exact I.
Qed.

Lemma div_zero_or_NaN (a b : float) :
  zero_or_NaN a -> zero_or_NaN b -> NaN (a / b).
Proof.
  unfold zero_or_NaN, NaN. rewrite div_spec. unfold SF64div, SFdiv.
  destruct (Prim2SF a) as [sa|sa| |sa ma ea]; try contradiction; intros _;
    destruct (Prim2SF b) as [sb|sb| |sb mb eb]; try contradiction; intros _;
    reflexivity.
Qed.

Lemma add_NaN_r (a b : float) : NaN b -> NaN (a + b).
Proof.
  unfold NaN. rewrite add_spec. intros ->. unfold SF64add, SFadd.
  destruct (Prim2SF a); reflexivity.
Qed.

Lemma add_NaN_l (a b : float) : NaN a -> NaN (a + b).
Proof. unfold NaN. rewrite add_spec. intros ->. reflexivity. Qed.

Lemma sub_NaN_r (a b : float) : NaN b -> NaN (a - b).
Proof.
  unfold NaN. rewrite sub_spec. intros ->. unfold SF64sub, SFsub.
  destruct (Prim2SF a); reflexivity.
Qed.

Lemma mul_NaN_l (a b : float) : NaN a -> NaN (a * b).
Proof. unfold NaN. rewrite mul_spec. intros ->. reflexivity. Qed.

Lemma is_nan_NaN (a : float) : NaN a -> is_nan a = true.
Proof.
  unfold NaN, is_nan. rewrite FloatAxioms.eqb_spec. intros ->. reflexivity.
Qed.

Lemma nan_NaN : NaN nan.
Proof. reflexivity. Qed.

Lemma min_NaN_r (a b : float) : NaN b -> NaN (F64.min a b).
Proof.
  intros Hb. unfold F64.min. rewrite (is_nan_NaN b Hb), Bool.orb_true_r.
  exact nan_NaN.
Qed.

Lemma max_NaN_r (a b : float) : NaN b -> NaN (F64.max a b).
Proof.
  intros Hb. unfold F64.max. rewrite (is_nan_NaN b Hb), Bool.orb_true_r.
  exact nan_NaN.
Qed.

Lemma ltb_NaN_l (a b : float) : NaN a -> (a <? b) = false.
Proof. unfold NaN. rewrite ltb_spec. intros ->. reflexivity. Qed.

(** The squared length of a segment from a point to itself. *)
Lemma lenSq_degenerate (x y : float) :
  zero_or_NaN (Spec.dot (Spec.vsub (x, y) (x, y)) (Spec.vsub (x, y) (x, y))).
Proof.
  unfold Spec.dot, Spec.vsub. cbn [fst snd].
  cbn [num_add num_sub num_mul float_JSNumber].
  apply add_zero_or_NaN; apply mul_zero_or_NaN_r; apply sub_diag.
Qed.

Lemma projection_degenerate (x y : float) (c : float * float) :
  NaN (Spec.projection_parameter (x, y) (x, y) c).
Proof.
  unfold Spec.projection_parameter, Spec.dot, Spec.vsub. cbn [fst snd].
  cbn [num_add num_sub num_mul num_div float_JSNumber].
  apply div_zero_or_NaN; apply add_zero_or_NaN; apply mul_zero_or_NaN_r;
    apply sub_diag.
Qed.

End F64Facts.

(** C10. A segment whose two endpoints are the same point never hits, for
    any object, also one centered on that point: the squared length of the
    segment is zero (NaN if a coordinate is not finite), the projection
    parameter is a division by it and is NaN, and every comparison with NaN
    is false. *)
Theorem checkCollision_degenerate_segment
    (x y life1 life2 : float) (obj : GameObject float) :
  F64.zero_or_NaN (Spec.dot (Spec.vsub (x, y) (x, y)) (Spec.vsub (x, y) (x, y)))
  /\ F64.NaN (Spec.projection_parameter (x, y) (x, y) (center obj))
  /\ checkCollision (mkTrailPoint x y life1) (mkTrailPoint x y life2) obj = false
  /\ (checkCollision (pt 320 240) (pt 320 240) (bubble true 320 240 50) = false)%float.
Proof.
  split; [apply F64Facts.lenSq_degenerate|].
  split; [apply F64Facts.projection_degenerate|].
  split; [|vm_compute; reflexivity].
  rewrite checkCollision_hit.
  unfold Spec.hit, Spec.sq_dist, Spec.closest_point, Spec.point_at, Spec.clamp01.
  pose proof (F64Facts.projection_degenerate x y (center obj)) as Ht.
  unfold pos. cbn [tp_x tp_y].
  set (t := Spec.projection_parameter (x, y) (x, y) (center obj)) in *.
  unfold Spec.dot, Spec.vsub. cbn [fst snd].
  cbn [num_add num_sub num_mul num_div num_lt Math_min Math_max float_JSNumber].
  apply F64Facts.ltb_NaN_l, F64Facts.add_NaN_l, F64Facts.mul_NaN_l, F64Facts.sub_NaN_r,
    F64Facts.add_NaN_r, F64Facts.mul_NaN_l, F64Facts.max_NaN_r, F64Facts.min_NaN_r.
  exact Ht.
Qed.

(** ** Slices and the round *)

Section RoundFacts.
Variable Math_random : nat -> float.
Variable Math_cos Math_sin : float -> float.

Abbreviation createSplatter := (createSplatter Math_random Math_cos Math_sin).
Abbreviation slice := (slice Math_random Math_cos Math_sin).
Abbreviation updateObject := (updateObject Math_random Math_cos Math_sin).

Lemma pushParticle_shape (x y : float) (color : string) (a : App) :
  exists p, pushParticle Math_random Math_cos Math_sin x y color a =
            set_particlesRef (particlesRef a ++ [p]) (set_randomDraws (3 + randomDraws a) a).
Proof. eexists. reflexivity. Qed.

Lemma splatter_shape (n : nat) (x y : float) (color : string) (a : App) :
  exists burst,
    length burst = n /\
    Nat.iter n (pushParticle Math_random Math_cos Math_sin x y color) a =
    set_particlesRef (particlesRef a ++ burst) (set_randomDraws (3 * n + randomDraws a) a).
Proof.
  induction n as [|n IH].
  - exists []. split; [reflexivity|]. destruct a; cbn. rewrite app_nil_r. reflexivity.
  - destruct IH as [burst [Hlen IH]]. rewrite Nat.iter_succ, IH.
    destruct (pushParticle_shape x y color
                (set_particlesRef (particlesRef a ++ burst)
                   (set_randomDraws (3 * n + randomDraws a) a))) as [p Hp].
    exists (burst ++ [p]). split.
    + rewrite length_app, Hlen. cbn. lia.
    + rewrite Hp. destruct a; unfold set_particlesRef, set_randomDraws; simpl.
      f_equal; [symmetry; apply app_assoc | lia].
Qed.

Lemma createSplatter_shape (x y : float) (color : string) (a : App) :
  exists burst,
    length burst = 16%nat /\
    createSplatter x y color a =
    set_particlesRef (particlesRef a ++ burst) (set_randomDraws (48 + randomDraws a) a).
Proof. apply (splatter_shape 16). Qed.

(** What a target hit does to the round. *)
Lemma targetHit_round (a : App) :
  scoreRef (targetHit a) = (scoreRef a + (10 + comboRef a * 2))%Z
  /\ score (targetHit a) = (scoreRef a + (10 + comboRef a * 2))%Z
  /\ comboRef (targetHit a) = (comboRef a + 1)%Z
  /\ combo (targetHit a) = (comboRef a + 1)%Z
  /\ livesRef (targetHit a) = livesRef a
  /\ lives (targetHit a) = lives a
  /\ gameState (targetHit a) = gameState a
  /\ slicesReported (targetHit a) = S (slicesReported a).
Proof.
  unfold targetHit, incrementCombo, setTimeout, clearTimeout, setScore, setCombo,
    playSound, slicesReported.
  cbn -[Z.add Z.mul Z.gtb].
  destruct (comboRef a + 1 >? 1)%Z; cbn -[Z.add Z.mul Z.gtb];
    destruct (comboTimerRef a) as [[|id]|];
    cbn -[Z.add Z.mul]; repeat split; reflexivity.
Qed.

Lemma distractorHit_round (a : App) :
  livesRef (distractorHit a) = (livesRef a - 1)%Z
  /\ lives (distractorHit a) = (livesRef a - 1)%Z
  /\ comboRef (distractorHit a) = 0%Z
  /\ combo (distractorHit a) = 0%Z
  /\ scoreRef (distractorHit a) = scoreRef a
  /\ score (distractorHit a) = score a
  /\ pendingTimeouts (distractorHit a) = pendingTimeouts a
  /\ comboTimerRef (distractorHit a) = comboTimerRef a
  /\ gameState (distractorHit a) =
       (if (livesRef a - 1 <=? 0)%Z then GAME_OVER else gameState a)
  /\ slicesReported (distractorHit a) = S (slicesReported a).
Proof.
  unfold distractorHit, setLives, setCombo, playSound, setGameState, slicesReported.
  cbn -[Z.sub Z.leb].
  destruct (livesRef a - 1 <=? 0)%Z; cbn -[Z.sub]; repeat split; reflexivity.
Qed.


Lemma moveObject_flags (obj : GameObject float) :
  obj_sliced (moveObject obj) = obj_sliced obj
  /\ obj_isTarget (moveObject obj) = obj_isTarget obj.
Proof. split; reflexivity. Qed.

Lemma updateObject_unfold (obj : GameObject float) (a : App) :
  updateObject obj a =
  if (negb (obj_sliced obj) && (2 <? length (trailRef a))%nat)%bool then
    match firstHit (trailRef a) (moveObject obj) with
    | Some _ => slice (moveObject obj) a
    | None => (moveObject obj, a)
    end
  else (moveObject obj, a).
Proof. reflexivity. Qed.

(** An object that was not sliced and is sliced after its turn went through
    [slice], at the first of the tested segments that hits. *)
Lemma updateObject_sliced_now (obj : GameObject float) (a : App) :
  obj_sliced obj = false ->
  obj_sliced (fst (updateObject obj a)) = true ->
  updateObject obj a = slice (moveObject obj) a
  /\ (2 < length (trailRef a))%nat
  /\ exists i, firstHit (trailRef a) (moveObject obj) = Some i.
Proof.
  intros Hfresh. rewrite updateObject_unfold, Hfresh. cbn [negb andb].
  destruct (2 <? length (trailRef a))%nat eqn:Hlen.
  - destruct (firstHit (trailRef a) (moveObject obj)) as [i|] eqn:Hhit.
    + intros _. split; [reflexivity|]. split; [now apply Nat.ltb_lt|]. now exists i.
    + cbn [fst]. intros Hs. rewrite (proj1 (moveObject_flags obj)), Hfresh in Hs.
      discriminate Hs.
  - cbn [fst]. intros Hs. rewrite (proj1 (moveObject_flags obj)), Hfresh in Hs.
    discriminate Hs.
Qed.

Lemma slice_target (obj : GameObject float) (a : App) :
  obj_isTarget obj = true ->
  scoreRef (snd (slice obj a)) = (scoreRef a + (10 + comboRef a * 2))%Z
  /\ score (snd (slice obj a)) = (scoreRef a + (10 + comboRef a * 2))%Z
  /\ comboRef (snd (slice obj a)) = (comboRef a + 1)%Z
  /\ combo (snd (slice obj a)) = (comboRef a + 1)%Z
  /\ livesRef (snd (slice obj a)) = livesRef a
  /\ lives (snd (slice obj a)) = lives a
  /\ gameState (snd (slice obj a)) = gameState a
  /\ slicesReported (snd (slice obj a)) = S (slicesReported a).
Proof.
  intros Htarget. unfold slice. cbn [snd].
  replace (obj_isTarget (markSliced obj)) with true by (symmetry; exact Htarget).
  destruct (createSplatter_shape (obj_x (markSliced obj)) (obj_y (markSliced obj))
              (obj_color (markSliced obj)) a) as [burst [_ ->]].
  exact (targetHit_round _).
Qed.

Lemma slice_distractor (obj : GameObject float) (a : App) :
  obj_isTarget obj = false ->
  livesRef (snd (slice obj a)) = (livesRef a - 1)%Z
  /\ lives (snd (slice obj a)) = (livesRef a - 1)%Z
  /\ comboRef (snd (slice obj a)) = 0%Z
  /\ combo (snd (slice obj a)) = 0%Z
  /\ scoreRef (snd (slice obj a)) = scoreRef a
  /\ score (snd (slice obj a)) = score a
  /\ pendingTimeouts (snd (slice obj a)) = pendingTimeouts a
  /\ comboTimerRef (snd (slice obj a)) = comboTimerRef a
  /\ gameState (snd (slice obj a)) =
       (if (livesRef a - 1 <=? 0)%Z then GAME_OVER else gameState a)
  /\ slicesReported (snd (slice obj a)) = S (slicesReported a).
Proof.
  intros Hdistractor. unfold slice. cbn [snd].
  replace (obj_isTarget (markSliced obj)) with false by (symmetry; exact Hdistractor).
  destruct (createSplatter_shape (obj_x (markSliced obj)) (obj_y (markSliced obj))
              (obj_color (markSliced obj)) a) as [burst [_ ->]].
  exact (distractorHit_round _).
Qed.

Lemma slice_reported (obj : GameObject float) (a : App) :
  slicesReported (snd (slice obj a)) = S (slicesReported a)
  /\ obj_sliced (fst (slice obj a)) = true.
Proof.
  split; [|reflexivity].
  destruct (obj_isTarget obj) eqn:Hkind.
  - apply (slice_target obj a Hkind).
  - apply (slice_distractor obj a Hkind).
Qed.

End RoundFacts.

Section Slicing.
Variable Math_random : nat -> float.
Variable Math_cos Math_sin : float -> float.

Abbreviation updateObject' := (updateObject Math_random Math_cos Math_sin).

(** C2. When an object that is a target is sliced in its turn of the
    collision pass, the score grows by exactly 10 + 2c, c being the combo
    count before the hit, and the combo count grows by 1 (the displayed score
    and combo follow); with a combo of 3 the score grows by 16. *)
Theorem target_hit_scores (obj : GameObject float) (a : App) :
  obj_isTarget obj = true ->
  obj_sliced obj = false ->
  obj_sliced (fst (updateObject' obj a)) = true ->
  let a' := snd (updateObject' obj a) in
  (scoreRef a' = scoreRef a + (10 + 2 * comboRef a)
   /\ score a' = scoreRef a'
   /\ comboRef a' = comboRef a + 1
   /\ combo a' = comboRef a'
   /\ (comboRef a = 3 -> scoreRef a' = scoreRef a + 16))%Z.
Proof.
  intros Htarget Hfresh Hnow a'.
  destruct (updateObject_sliced_now Math_random Math_cos Math_sin obj a Hfresh Hnow)
    as [Hslice _].
  assert (Hkind : obj_isTarget (moveObject obj) = true) by exact Htarget.
  destruct (slice_target Math_random Math_cos Math_sin (moveObject obj) a Hkind)
    as (Hs & Hd & Hc & Hcd & _).
  subst a'. rewrite Hslice. rewrite Hs, Hd, Hc, Hcd.
  repeat split; try lia.
Qed.

End Slicing.

(** A target on the blade, sliced with a combo of 3: the score goes from 0
    to 16 and the combo to 4. *)
Lemma target_hit_scores_witness :
  let a := set_comboRef 3 in_play in
  let a' := snd (updateObject half no_trig no_trig target_on_blade a) in
  (scoreRef a' = scoreRef a + (10 + 2 * comboRef a)
   /\ score a' = scoreRef a'
   /\ comboRef a' = comboRef a + 1
   /\ combo a' = comboRef a'
   /\ (comboRef a = 3 -> scoreRef a' = scoreRef a + 16))%Z.
Proof.
  intros a.
  apply (target_hit_scores half no_trig no_trig target_on_blade a).
  - reflexivity.
  - reflexivity.
  - vm_compute. reflexivity.
Defined.

Section Distractors.
Variable Math_random : nat -> float.
Variable Math_cos Math_sin : float -> float.

Abbreviation updateObject' := (updateObject Math_random Math_cos Math_sin).

(** A timeout that fires resets the combo and touches nothing else of the
    round. *)
Lemma fireTimeout_round (id : nat) (a : App) :
  (comboRef a = 0%Z -> comboRef (fireTimeout id a) = 0%Z)
  /\ (combo a = 0%Z -> combo (fireTimeout id a) = 0%Z)
  /\ scoreRef (fireTimeout id a) = scoreRef a
  /\ livesRef (fireTimeout id a) = livesRef a
  /\ gameState (fireTimeout id a) = gameState a.
Proof.
  unfold fireTimeout. destruct (is_pending id a); repeat split; auto.
Qed.

(** C3 (as amended). When an object that is a distractor is sliced in its
    turn of the collision pass, lives drops by exactly 1, the combo count is
    0 at once, and the state becomes GameOver when lives has reached 0 (so
    from lives = 1: lives = 0 and GameOver).  The pending combo timeout is
    left as it was, neither cleared nor replaced; when it fires later it finds
    the combo at 0 and leaves score, lives and phase alone. *)
Theorem distractor_hit_costs_a_life (obj : GameObject float) (a : App) :
  obj_isTarget obj = false ->
  obj_sliced obj = false ->
  obj_sliced (fst (updateObject' obj a)) = true ->
  let a' := snd (updateObject' obj a) in
  (livesRef a' = livesRef a - 1
   /\ lives a' = livesRef a'
   /\ comboRef a' = 0
   /\ combo a' = 0
   /\ (livesRef a' <= 0 -> gameState a' = GAME_OVER)
   /\ (0 < livesRef a' -> gameState a' = gameState a)
   /\ (livesRef a = 1 -> livesRef a' = 0 /\ gameState a' = GAME_OVER))%Z
  /\ pendingTimeouts a' = pendingTimeouts a
  /\ comboTimerRef a' = comboTimerRef a
  /\ (forall id,
        comboRef (fireTimeout id a') = 0%Z
        /\ combo (fireTimeout id a') = 0%Z
        /\ scoreRef (fireTimeout id a') = scoreRef a'
        /\ livesRef (fireTimeout id a') = livesRef a'
        /\ gameState (fireTimeout id a') = gameState a').
Proof.
  intros Hdistractor Hfresh Hnow a'.
  destruct (updateObject_sliced_now Math_random Math_cos Math_sin obj a Hfresh Hnow)
    as [Hslice _].
  assert (Hkind : obj_isTarget (moveObject obj) = false) by exact Hdistractor.
  destruct (slice_distractor Math_random Math_cos Math_sin (moveObject obj) a Hkind)
    as (Hl & Hld & Hc & Hcd & _ & _ & Hp & Ht & Hg & _).
  subst a'. rewrite Hslice.
  split; [|split; [exact Hp|split; [exact Ht|]]].
  - rewrite Hl, Hld, Hc, Hcd, Hg.
    split; [reflexivity|]. split; [reflexivity|].
    split; [reflexivity|]. split; [reflexivity|].
    split; [|split].
    + intros Hz. apply Z.leb_le in Hz. rewrite Hz. reflexivity.
    + intros Hz. apply Z.leb_gt in Hz. rewrite Hz. reflexivity.
    + intros H1. rewrite H1. split; reflexivity.
  - intros id.
    destruct (fireTimeout_round id (snd (slice Math_random Math_cos Math_sin (moveObject obj) a)))
      as (Fc & Fd & Fs & Fl & Fg).
    repeat split; auto.
Qed.

End Distractors.

(** A distractor on the blade, sliced with one life left and a combo
    timeout pending. *)
Lemma distractor_hit_costs_a_life_witness :
  let a := set_livesRef 1 (targetHit in_play) in
  let a' := snd (updateObject half no_trig no_trig distractor_on_blade a) in
  (livesRef a' = livesRef a - 1
   /\ lives a' = livesRef a'
   /\ comboRef a' = 0
   /\ combo a' = 0
   /\ (livesRef a' <= 0 -> gameState a' = GAME_OVER)
   /\ (0 < livesRef a' -> gameState a' = gameState a)
   /\ (livesRef a = 1 -> livesRef a' = 0 /\ gameState a' = GAME_OVER))%Z
  /\ pendingTimeouts a' = pendingTimeouts a
  /\ comboTimerRef a' = comboTimerRef a
  /\ (forall id,
        comboRef (fireTimeout id a') = 0%Z
        /\ combo (fireTimeout id a') = 0%Z
        /\ scoreRef (fireTimeout id a') = scoreRef a'
        /\ livesRef (fireTimeout id a') = livesRef a'
        /\ gameState (fireTimeout id a') = gameState a').
Proof.
  intros a.
  apply (distractor_hit_costs_a_life half no_trig no_trig distractor_on_blade a).
  - reflexivity.
  - reflexivity.
  - vm_compute. reflexivity.
Defined.

(** C3 as stated fails on the timer: after a target hit has set the combo
    timeout (handle 1), a distractor hit leaves that timeout pending. *)
Lemma distractor_hit_keeps_timeout :
  ~ (forall (obj : GameObject float) (a : App) (id : nat),
        obj_isTarget obj = false ->
        obj_sliced obj = false ->
        obj_sliced (fst (updateObject half no_trig no_trig obj a)) = true ->
        comboTimerRef a = Some id ->
        is_pending id a = true ->
        is_pending id (snd (updateObject half no_trig no_trig obj a)) = false).
Proof.
  intros Hcancel.
  specialize (Hcancel distractor_on_blade (targetHit in_play) 1%nat
                eq_refl eq_refl).
  assert (Hsliced : obj_sliced (fst (updateObject half no_trig no_trig distractor_on_blade
                                       (targetHit in_play))) = true)
    by (vm_compute; reflexivity).
  specialize (Hcancel Hsliced eq_refl eq_refl).
  vm_compute in Hcancel. discriminate Hcancel.
Qed.

(** ** One slice per object *)

(** [find] over a range of indices stops at the least index that passes. *)
Lemma find_seq_first (f : nat -> bool) (len start i : nat) :
  find f (seq start len) = Some i ->
  (start <= i < start + len)%nat /\ f i = true
  /\ forall j, (start <= j < i)%nat -> f j = false.
Proof.
  revert start. induction len as [|len IH]; intros start; cbn [seq find].
  - discriminate.
  - destruct (f start) eqn:Hstart.
    + intros [= <-]. repeat split; try lia. exact Hstart.
    + intros Hfind. destruct (IH (S start) Hfind) as (Hrange & Hi & Hbefore).
      repeat split; try lia; [exact Hi|].
      intros j Hj. destruct (Nat.eq_dec j start) as [->|Hne]; [exact Hstart|].
      apply Hbefore. lia.
Qed.

(** The loop of the collision pass breaks at the first of the (at most five)
    newest segments that hits. *)
Lemma firstHit_first (trail : list (TrailPoint float)) (obj : GameObject float) (i : nat) :
  firstHit trail obj = Some i ->
  (i < 5)%nat /\ (S i < length trail)%nat
  /\ segmentHits trail obj i = true
  /\ forall j, (j < i)%nat -> segmentHits trail obj j = false.
Proof.
  unfold firstHit. intros Hfind.
  destruct (find_seq_first _ _ _ _ Hfind) as (Hrange & Hi & Hbefore).
  repeat split; try lia; [exact Hi|].
  intros j Hj. apply Hbefore. lia.
Qed.

Section SlicedOnce.
Variable Math_random : nat -> float.
Variable Math_cos Math_sin : float -> float.

Abbreviation updateObject' := (updateObject Math_random Math_cos Math_sin).

Lemma updateObject_skips_sliced (obj : GameObject float) (a : App) :
  obj_sliced obj = true -> updateObject' obj a = (moveObject obj, a).
Proof. intros Hs. rewrite updateObject_unfold, Hs. reflexivity. Qed.

(** The turn of an object reports a slice exactly when the object was not
    sliced, the trail has more than two points and one of the tested segments
    hits; it then reports one slice and marks the object. *)
Lemma updateObject_reports (obj : GameObject float) (a : App) :
  (obj_sliced obj = false /\ (2 < length (trailRef a))%nat
   /\ (exists i, firstHit (trailRef a) (moveObject obj) = Some i)
   /\ slicesReported (snd (updateObject' obj a)) = S (slicesReported a)
   /\ obj_sliced (fst (updateObject' obj a)) = true)
  \/ (updateObject' obj a = (moveObject obj, a)).
Proof.
  rewrite updateObject_unfold.
  destruct (obj_sliced obj) eqn:Hs; [right; reflexivity|].
  cbn [negb andb].
  destruct (2 <? length (trailRef a))%nat eqn:Hlen; [|right; reflexivity].
  destruct (firstHit (trailRef a) (moveObject obj)) as [i|] eqn:Hhit; [|right; reflexivity].
  left. apply Nat.ltb_lt in Hlen.
  destruct (slice_reported Math_random Math_cos Math_sin (moveObject obj) a) as [Hr Hm].
  repeat split; try assumption. now exists i.
Qed.

(** Over successive turns one object is sliced at most once. *)
Lemma slicesOver_once (states : list App) (obj : GameObject float) :
  (slicesOver Math_random Math_cos Math_sin obj states <= 1)%nat
  /\ (obj_sliced obj = true -> slicesOver Math_random Math_cos Math_sin obj states = 0%nat).
Proof.
  revert obj. induction states as [|a rest IH]; intros obj; cbn [slicesOver].
  - split; [lia|reflexivity].
  - destruct (updateObject_reports obj a) as [(Hs & _ & _ & Hr & Hflag)|Hsame].
    + destruct (updateObject' obj a) as [obj' a'] eqn:Hturn. cbn [fst snd] in *.
      destruct (IH obj') as [_ Hnone]. rewrite (Hnone Hflag), Hr.
      split; [lia|]. intros Hs'. rewrite Hs' in Hs. discriminate Hs.
    + rewrite Hsame. destruct (IH (moveObject obj)) as [Hle Hnone].
      rewrite Nat.sub_diag. cbn [Nat.add]. split; [exact Hle|].
      intros Hs. apply Hnone. rewrite (proj1 (moveObject_flags obj)). exact Hs.
Qed.

(** C6. No object is sliced twice.  In its turn of the collision pass an
    object's [sliced] flag never goes from true back to false, and it is
    true after the turn exactly when it was true before or the turn reports a
    slice; an object that is already sliced is only moved, and nothing is
    reported, scored or spawned for it; an object's turn reports at most one
    slice, and it reports one exactly when the object was not yet sliced, the
    trail has more than two points and some tested segment hits; the segment
    that counts is the first that hits among the five newest, and the loop
    stops there; and over any number of successive turns, whatever happens
    to the state in between, at most one slice is reported for the object. *)
Theorem sliced_at_most_once :
  (forall obj a, obj_sliced obj = true -> obj_sliced (fst (updateObject' obj a)) = true)
  /\ (forall obj a,
        obj_sliced (fst (updateObject' obj a)) = true <->
        (obj_sliced obj = true
         \/ slicesReported (snd (updateObject' obj a)) = S (slicesReported a)))
  /\ (forall obj states,
        (slicesOver Math_random Math_cos Math_sin obj states <= 1)%nat)
  /\ (forall obj a, obj_sliced obj = true -> updateObject' obj a = (moveObject obj, a))
  /\ (forall obj a, (slicesReported (snd (updateObject' obj a)) <= S (slicesReported a))%nat)
  /\ (forall obj a,
        slicesReported (snd (updateObject' obj a)) = S (slicesReported a) <->
        (obj_sliced obj = false /\ (2 < length (trailRef a))%nat
         /\ exists i, firstHit (trailRef a) (moveObject obj) = Some i))
  /\ (forall trail obj i,
        firstHit trail obj = Some i ->
        (i < 5)%nat /\ (S i < length trail)%nat
        /\ segmentHits trail obj i = true
        /\ forall j, (j < i)%nat -> segmentHits trail obj j = false).
Proof.
  split; [|split; [|split; [|split; [|split; [|split]]]]].
  - intros obj a Hs. rewrite (updateObject_skips_sliced obj a Hs). exact Hs.
  - intros obj a.
    destruct (updateObject_reports obj a) as [(Hs & _ & _ & Hr & Hflag)|Hsame].
    + split; [intros _; right; exact Hr|intros _; exact Hflag].
    + rewrite Hsame. cbn [fst snd]. rewrite (proj1 (moveObject_flags obj)).
      split; [intros Hs; left; exact Hs|intros [Hs|Hr]; [exact Hs|lia]].
  - intros obj states. apply slicesOver_once.
  - exact updateObject_skips_sliced.
  - intros obj a.
    destruct (updateObject_reports obj a) as [(_ & _ & _ & Hr & _)|Hsame].
    + rewrite Hr. lia.
    + rewrite Hsame. cbn [snd]. lia.
  - intros obj a. split.
    + intros Hr.
      destruct (updateObject_reports obj a) as [(Hs & Hlen & Hhit & _ & _)|Hsame].
      * auto.
      * rewrite Hsame in Hr. cbn [snd] in Hr. lia.
    + intros (Hs & Hlen & [i Hhit]).
      destruct (updateObject_reports obj a) as [(_ & _ & _ & Hr & _)|Hsame];
        [exact Hr|].
      rewrite updateObject_unfold, Hs in Hsame. cbn [negb andb] in Hsame.
      apply Nat.ltb_lt in Hlen. rewrite Hlen, Hhit in Hsame.
      pose proof (slice_reported Math_random Math_cos Math_sin (moveObject obj) a)
        as [_ Hm].
      rewrite Hsame in Hm. cbn [fst] in Hm.
      rewrite (proj1 (moveObject_flags obj)), Hs in Hm. discriminate Hm.
  - exact firstHit_first.
Qed.

End SlicedOnce.

(** A target lying on the blade, taken through three turns that each start
    with the blade on it: one slice at most; the turn of a sliced object
    changes nothing; the slice is at segment 0, the first of two that hit. *)
Lemma sliced_at_most_once_witness :
  (slicesOver half no_trig no_trig target_on_blade [in_play; in_play; in_play] <= 1)%nat
  /\ updateObject half no_trig no_trig (markSliced target_on_blade) in_play
     = (moveObject (markSliced target_on_blade), in_play)
  /\ ((0 < 5)%nat /\ (1 < length sample_trail)%nat
      /\ segmentHits sample_trail target_on_blade 0 = true
      /\ forall j, (j < 0)%nat -> segmentHits sample_trail target_on_blade j = false).
Proof.
  pose proof (sliced_at_most_once half no_trig no_trig)
    as (_ & _ & Hover & Hskip & _ & _ & Hfirst).
  split; [apply Hover|]. split.
  - apply Hskip. reflexivity.
  - apply Hfirst. vm_compute. reflexivity.
Defined.

(** That target is sliced in the first of the three turns and is on the
    blade again in the next two, where the flag keeps it from being counted;
    and its flag is set by the first turn. *)
Example target_sliced_once :
  slicesOver half no_trig no_trig target_on_blade [in_play; in_play; in_play] = 1%nat
  /\ obj_sliced (fst (updateObject half no_trig no_trig target_on_blade in_play)) = true
  /\ firstHit (trailRef in_play)
       (moveObject (fst (updateObject half no_trig no_trig target_on_blade in_play)))
     = Some 0%nat.
Proof. vm_compute. repeat split. Qed.

(** ** Gravity *)

(** C8 (as amended). Each tick adds [PARTICLE_GRAVITY] = 0.15 to a
    particle's vertical velocity and [GRAVITY] = 0.25 to an object's: the
    particles' constant is the smaller of the two. *)
Theorem particle_gravity_is_smaller :
  (forall p, p_vy (moveParticle p) = p_vy p + PARTICLE_GRAVITY)%float
  /\ (forall obj, obj_vy (moveObject obj) = obj_vy obj + GRAVITY)%float
  /\ (PARTICLE_GRAVITY = 0.15 /\ GRAVITY = 0.25)%float
  /\ (PARTICLE_GRAVITY <? GRAVITY)%float = true.
Proof. repeat split. Qed.

(** C8 as stated fails: a particle and an object that both start a tick at
    rest end it with vertical velocities 0.15 and 0.25, and 0.15 is not the
    larger. *)
Lemma particle_gravity_not_larger :
  ~ (forall (p : Particle) (obj : GameObject float),
        p_vy p = obj_vy obj ->
        (obj_vy (moveObject obj) <? p_vy (moveParticle p))%float = true).
Proof.
  intros Hlarger.
  specialize (Hlarger still_particle target_on_blade eq_refl).
  vm_compute in Hlarger. discriminate Hlarger.
Qed.

(** ** Startup *)

Section Startup.
Variable JSON_parse : string -> option (option LevelData).

Lemma generateLevel_fails (reply : ServiceReply) :
  Spec.fetch_fails reply -> exists e, generateLevel JSON_parse reply = Thrown e.
Proof.
  destruct reply as [e|[text|]]; cbn.
  - intros _. now exists e.
  - intros ->. now eexists.
  - intros _. now eexists.
Qed.

(** Whatever makes [generateLevel] throw, [initializeGame] ends in its
    [catch]. *)
Lemma initializeGame_catch (cam : CameraOutcome) (reply : ServiceReply) (a : App) (e : string) :
  generateLevel JSON_parse reply = Thrown e ->
  let a' := initializeGame JSON_parse cam reply a in
  gameState a' = ERROR
  /\ errorMsg a' = Some "AI Dojo disconnected."%string
  /\ (exists entered, phaseLog a' = entered ++ phaseLog a /\ ~ In PLAYING entered)
  /\ levelData a' = levelData a
  /\ scoreRef a' = scoreRef a /\ livesRef a' = livesRef a
  /\ objectsRef a' = objectsRef a.
Proof.
  intros Hthrown. unfold initializeGame. rewrite Hthrown.
  destruct (permissionGranted a); [|destruct cam]; cbn.
  - repeat split. exists [ERROR; LOADING_LEVEL]. split; [reflexivity|].
    cbn. intros [H|[H|[]]]; discriminate H.
  - repeat split. exists [ERROR; LOADING_LEVEL]. split; [reflexivity|].
    cbn. intros [H|[H|[]]]; discriminate H.
  - repeat split. exists [ERROR; ERROR; LOADING_LEVEL]. split; [reflexivity|].
    cbn. intros [H|[H|[H|[]]]]; discriminate H.
Qed.

(** C9. If the level fetch fails, because the service throws or because its
    response carries no text or an empty one, the startup ends in Error with
    the message "AI Dojo disconnected.", none of the phases entered on the
    way is Playing, and the round is not reset. *)
Theorem level_fetch_failure (cam : CameraOutcome) (reply : ServiceReply) (a : App) :
  Spec.fetch_fails reply ->
  let a' := initializeGame JSON_parse cam reply a in
  gameState a' = ERROR
  /\ errorMsg a' = Some "AI Dojo disconnected."%string
  /\ (exists entered, phaseLog a' = entered ++ phaseLog a /\ ~ In PLAYING entered)
  /\ levelData a' = levelData a
  /\ scoreRef a' = scoreRef a /\ livesRef a' = livesRef a
  /\ objectsRef a' = objectsRef a.
Proof.
  intros Hfails. destruct (generateLevel_fails reply Hfails) as [e He].
  exact (initializeGame_catch cam reply a e He).
Qed.

End Startup.

(** The service answers without text as the mounted component starts. *)
Lemma level_fetch_failure_witness :
  let a' := initializeGame no_json StreamGranted (ServiceResponds None) mounted in
  gameState a' = ERROR
  /\ errorMsg a' = Some "AI Dojo disconnected."%string
  /\ (exists entered, phaseLog a' = entered ++ phaseLog mounted /\ ~ In PLAYING entered)
  /\ levelData a' = levelData mounted
  /\ scoreRef a' = scoreRef mounted /\ livesRef a' = livesRef mounted
  /\ objectsRef a' = objectsRef mounted.
Proof.
  apply (level_fetch_failure no_json StreamGranted (ServiceResponds None) mounted).
  exact I.
Defined.

(** ** The motion gate *)

(** The test of the scan at byte index [4k] is the specification's test of
    pixel [k]. *)
Lemma pixelMoved_qualifies (cur prev : list Z) (k : nat) :
  pixelMoved cur prev (4 * k) = Spec.qualifies cur prev k.
Proof.
  unfold pixelMoved, Spec.qualifies, Spec.diff_sum, channelDiff.
  destruct (nth_error cur (4 * k)) as [r|]; [|reflexivity].
  destruct (nth_error prev (4 * k)) as [r'|];
    [|destruct (nth_error cur (4 * k + 1)); [destruct (nth_error cur (4 * k + 2))|];
      reflexivity].
  destruct (nth_error cur (4 * k + 1)) as [g|]; [|reflexivity].
  destruct (nth_error prev (4 * k + 1)) as [g'|];
    [|destruct (nth_error cur (4 * k + 2)); reflexivity].
  destruct (nth_error cur (4 * k + 2)) as [b|]; [|reflexivity].
  destruct (nth_error prev (4 * k + 2)) as [b'|]; [|reflexivity].
  unfold MOTION_THRESHOLD. rewrite Z.gtb_ltb. reflexivity.
Qed.

Lemma pixels_bound (frame : list Z) (k : nat) :
  (k < Spec.pixels frame)%nat <-> (4 * k < length frame)%nat.
Proof.
  unfold Spec.pixels.
  pose proof (Nat.div_mod_eq (length frame + 3) 4) as Hdiv.
  pose proof (Nat.mod_upper_bound (length frame + 3) 4) as Hmod.
  lia.
Qed.

(** The count the scan returns: what it started from plus the qualifying
    pixels from [k] on, provided the fuel covers the pixels left. *)
Lemma scanPixels_count (cur prev : list Z) (w : Z) (n : nat) :
  forall (fuel k : nat) (sumX sumY : float) (count : Z),
    n = (Spec.pixels cur - k)%nat ->
    (n <= fuel)%nat ->
    snd (scanPixels fuel cur prev w (4 * k) sumX sumY count) =
    (count + Z.of_nat (length (filter (Spec.qualifies cur prev) (seq k n))))%Z.
Proof.
  induction n as [|n IH]; intros fuel k sumX sumY count Hn Hfuel.
  - cbn [seq filter length]. rewrite Z.add_0_r.
    assert (Hdone : (4 * k <? length cur)%nat = false).
    { apply Nat.ltb_ge. destruct (Nat.lt_ge_cases (4 * k) (length cur)) as [Hlt|Hge];
        [|exact Hge]. apply pixels_bound in Hlt. lia. }
    destruct fuel as [|fuel]; cbn [scanPixels]; [reflexivity|].
    rewrite Hdone. reflexivity.
  - destruct fuel as [|fuel]; [lia|]. cbn [scanPixels].
    assert (Hmore : (4 * k <? length cur)%nat = true).
    { apply Nat.ltb_lt, pixels_bound. lia. }
    rewrite Hmore, pixelMoved_qualifies.
    replace (4 * k + 4)%nat with (4 * S k)%nat by lia.
    cbn [seq filter].
    destruct (Spec.qualifies cur prev k).
    + rewrite IH by lia. cbn [length]. lia.
    + rewrite IH by lia. reflexivity.
Qed.

Lemma pixels_le_length (frame : list Z) : (Spec.pixels frame <= length frame)%nat.
Proof.
  unfold Spec.pixels. destruct frame as [|z frame]; [reflexivity|].
  cbn [length].
  pose proof (Nat.div_mod_eq (S (length frame) + 3) 4) as Hdiv.
  pose proof (Nat.mod_upper_bound (S (length frame) + 3) 4) as Hmod.
  lia.
Qed.

Lemma scanPixels_qualifying (cur prev : list Z) (w : Z) :
  snd (scanPixels (length cur) cur prev w 0 0 0 0) =
  Z.of_nat (Spec.qualifying_pixels cur prev).
Proof.
  pose proof (scanPixels_count cur prev w (Spec.pixels cur - 0) (length cur) 0
                0%float 0%float 0%Z) as Hcount.
  change (4 * 0)%nat with 0%nat in Hcount. rewrite Hcount.
  - rewrite Nat.sub_0_r. reflexivity.
  - lia.
  - rewrite Nat.sub_0_r. apply pixels_le_length.
Qed.

(** With a previous frame in the slot, [detectMotion] answers from the
    count of qualifying pixels alone: at or below the gate, no motion. *)
Lemma detectMotion_gate (cap : Capture) (prevData : list Z) (a : App) :
  prevFrameDataRef a = Some prevData ->
  (Z.of_nat (Spec.qualifying_pixels (cap_data cap) prevData) <= MIN_MOVEMENT_PIXELS)%Z ->
  detectMotion (Some cap) a = (None, set_prevFrameDataRef (Some (cap_data cap)) a).
Proof.
  intros Hprev Hcount. unfold detectMotion. rewrite Hprev.
  pose proof (scanPixels_qualifying (cap_data cap) prevData (cap_width cap)) as Hscan.
  destruct (scanPixels (length (cap_data cap)) (cap_data cap) prevData (cap_width cap) 0 0 0 0)
    as [[sumX sumY] count].
  cbn [snd] in Hscan. subst count.
  assert (Hgate : (Z.of_nat (Spec.qualifying_pixels (cap_data cap) prevData)
                   >? MIN_MOVEMENT_PIXELS)%Z = false).
  { rewrite Z.gtb_ltb. apply Z.ltb_ge. exact Hcount. }
  rewrite Hgate. reflexivity.
Qed.

Lemma identical_frames_still (frame : list Z) : Spec.qualifying_pixels frame frame = 0%nat.
Proof.
  unfold Spec.qualifying_pixels.
  assert (Hnone : forall k, Spec.qualifies frame frame k = false).
  { intros k. unfold Spec.qualifies, Spec.diff_sum.
    destruct (nth_error frame (4 * k)) as [r|]; [|reflexivity].
    destruct (nth_error frame (4 * k + 1)) as [g|]; [|reflexivity].
    destruct (nth_error frame (4 * k + 2)) as [b|]; [|reflexivity].
    rewrite !Z.sub_diag. reflexivity. }
  induction (seq 0 (Spec.pixels frame)) as [|k ks IH]; [reflexivity|].
  cbn [filter]. rewrite Hnone. exact IH.
Qed.

(** C4. With a previous frame in the slot, a frame pair whose count of
    qualifying pixels (sum of the absolute red, green and blue differences
    above 35 x 3) is below the minimum cluster size of 45 yields no motion,
    however large the differences of those pixels are; a frame compared with
    itself has no qualifying pixel and yields no motion. *)
Theorem detectMotion_needs_a_cluster :
  (forall (cap : Capture) (prevData : list Z) (a : App),
      prevFrameDataRef a = Some prevData ->
      (Z.of_nat (Spec.qualifying_pixels (cap_data cap) prevData) < MIN_MOVEMENT_PIXELS)%Z ->
      fst (detectMotion (Some cap) a) = None)
  /\ (forall (cap : Capture) (a : App),
        prevFrameDataRef a = Some (cap_data cap) ->
        Spec.qualifying_pixels (cap_data cap) (cap_data cap) = 0%nat
        /\ fst (detectMotion (Some cap) a) = None).
Proof.
  split.
  - intros cap prevData a Hprev Hcount.
    rewrite (detectMotion_gate cap prevData a Hprev); [reflexivity|lia].
  - intros cap a Hprev. split; [apply identical_frames_still|].
    rewrite (detectMotion_gate cap (cap_data cap) a Hprev); [reflexivity|].
    rewrite identical_frames_still. unfold MIN_MOVEMENT_PIXELS. lia.
Qed.

(** One pixel going from black to white, the largest difference there is,
    is no motion; neither is a frame that repeats. *)
Lemma detectMotion_needs_a_cluster_witness :
  fst (detectMotion (Some (mkCapture 2 flash_frame)) (seeded dark_frame)) = None
  /\ (Spec.qualifying_pixels flash_frame flash_frame = 0%nat
      /\ fst (detectMotion (Some (mkCapture 2 flash_frame)) (seeded flash_frame)) = None).
Proof.
  split.
  - apply (proj1 detectMotion_needs_a_cluster (mkCapture 2 flash_frame) dark_frame
             (seeded dark_frame)).
    + reflexivity.
    + vm_compute. reflexivity.
  - apply (proj2 detectMotion_needs_a_cluster (mkCapture 2 flash_frame)
             (seeded flash_frame)).
    reflexivity.
Defined.

(** ** The trail *)

Lemma decayTrail_alive (trail : list (TrailPoint float)) :
  Forall (fun p => (0 <? tp_life p)%float = true) (decayTrail trail).
Proof.
  unfold decayTrail. apply Forall_forall. intros p Hp.
  apply filter_In in Hp. exact (proj2 Hp).
Qed.

Lemma aged_from_weaken (lo lo' : nat) (trail : list (TrailPoint float)) :
  aged_from lo' trail -> (lo <= lo')%nat -> aged_from lo trail.
Proof.
  intros Haged Hle. destruct Haged as [|lo' k p trail Hk H8 Hlife Hrest].
  - constructor.
  - apply (aged_cons lo k); try assumption. lia.
Qed.

Lemma aged_from_length (lo : nat) (trail : list (TrailPoint float)) :
  aged_from lo trail -> (length trail <= 9 - lo)%nat.
Proof.
  induction 1 as [lo|lo k p trail Hk H8 Hlife Hrest IH]; cbn [length]; lia.
Qed.

(** A point that has been through [k <= 8] steps survives one more exactly
    when [k < 8]: the ninth step takes its life below zero. *)
Lemma life_after_alive (k : nat) :
  (k <= 8)%nat ->
  (0 <? Spec.life_after (S k))%float = true -> (S k <= 8)%nat.
Proof.
  intros Hk Halive.
  destruct (Nat.eq_dec k 8) as [->|Hne]; [|lia].
  vm_compute in Halive. discriminate Halive.
Qed.

Lemma life_after_positive (k : nat) :
  (k <= 8)%nat -> (0 <? Spec.life_after k)%float = true.
Proof.
  intros Hk. do 9 (destruct k as [|k]; [vm_compute; reflexivity|]). lia.
Qed.

Lemma fadePoint_life (p : TrailPoint float) (k : nat) :
  tp_life p = Spec.life_after k -> tp_life (fadePoint p) = Spec.life_after (S k).
Proof. intros Hlife. cbn. rewrite Hlife. reflexivity. Qed.

Lemma decayTrail_aged (lo : nat) (trail : list (TrailPoint float)) :
  aged_from lo trail -> aged_from (S lo) (decayTrail trail).
Proof.
  induction 1 as [lo|lo k p trail Hk H8 Hlife Hrest IH].
  - constructor.
  - unfold decayTrail in *. cbn [map filter].
    destruct (0 <? tp_life (fadePoint p))%float eqn:Halive.
    + rewrite (fadePoint_life p k Hlife) in Halive.
      apply (aged_cons (S lo) (S k)).
      * lia.
      * exact (life_after_alive k H8 Halive).
      * exact (fadePoint_life p k Hlife).
      * exact IH.
    + apply (aged_from_weaken (S lo) (S (S k))); [exact IH|lia].
Qed.

Section TrailFacts.
Variable Math_hypot : float -> float -> float.

Lemma followMotion_trail (motion : float * float) (a : App) :
  exists p, tp_life p = 1%float
            /\ trailRef (followMotion Math_hypot motion a) = p :: trailRef a.
Proof.
  unfold followMotion. destruct (swordPosRef a) as [sx sy].
  eexists. split; [|cbn [trailRef set_trailRef set_swordPosRef];
    destruct (trailRef a) as [|q [|q' rest]]; cbn; try reflexivity;
    match goal with |- context [if ?c then _ else _] => destruct c end; reflexivity].
  reflexivity.
Qed.

Lemma followMotion_aged (motion : float * float) (a : App) :
  aged_from 1 (trailRef a) -> aged_from 0 (trailRef (followMotion Math_hypot motion a)).
Proof.
  intros Haged. destruct (followMotion_trail motion a) as [p [Hlife ->]].
  apply (aged_cons 0 0); try lia; assumption.
Qed.

Lemma trailTick_trail (motion : option (float * float)) (a : App) :
  trailRef (trailTick Math_hypot motion a) =
  decayTrail (trailRef match motion with
                       | Some m => followMotion Math_hypot m a
                       | None => a
                       end).
Proof. reflexivity. Qed.

Lemma trailTick_aged (motion : option (float * float)) (a : App) :
  aged_from 1 (trailRef a) -> aged_from 1 (trailRef (trailTick Math_hypot motion a)).
Proof.
  intros Haged. rewrite trailTick_trail. destruct motion as [m|].
  - apply decayTrail_aged, followMotion_aged, Haged.
  - apply (aged_from_weaken 1 2); [|lia]. apply decayTrail_aged, Haged.
Qed.

(** However motion and stillness alternate from an empty trail on, the
    trail after a tick holds at most 8 points. *)
Lemma ticks_aged (motions : list (option (float * float))) (a : App) :
  aged_from 1 (trailRef a) ->
  aged_from 1 (trailRef (fold_left (fun s m => trailTick Math_hypot m s) motions a)).
Proof.
  revert a. induction motions as [|m motions IH]; intros a Haged; cbn [fold_left].
  - exact Haged.
  - apply IH, trailTick_aged, Haged.
Qed.

(** C5. After the decay-and-filter step of a tick every point of the trail
    has a life above 0, whatever the trail was and whether or not a motion
    sample came in.  Under continuous motion from an empty trail (a sample
    every tick, each pushing one point of life 1.0, every point losing 0.12
    per tick) the trail never holds more than 9 points: not after a tick, and
    not in the middle of the next one, when the new point has been pushed and
    the decay has not yet run. *)
Theorem trail_alive_and_bounded :
  (forall (motion : option (float * float)) (a : App),
      Forall (fun p => (0 <? tp_life p)%float = true)
        (trailRef (trailTick Math_hypot motion a)))
  /\ (forall (motions : list (float * float)) (a : App),
        let a' := fold_left (fun s m => trailTick Math_hypot (Some m) s) motions
                    (set_trailRef [] a) in
        (length (trailRef a') <= 9)%nat
        /\ forall m, (length (trailRef (followMotion Math_hypot m a')) <= 9)%nat).
Proof.
  split.
  - intros motion a. rewrite trailTick_trail. apply decayTrail_alive.
  - intros motions a a'.
    assert (Haged : aged_from 1 (trailRef a')).
    { subst a'.
      assert (Hstart : aged_from 1 (trailRef (set_trailRef [] a))) by constructor.
      revert Hstart. generalize (set_trailRef [] a). clear a.
      induction motions as [|m motions IH]; intros a Haged; cbn [fold_left].
      - exact Haged.
      - apply IH, trailTick_aged, Haged. }
    split.
    + apply aged_from_length in Haged. lia.
    + intros m. pose proof (followMotion_aged m a' Haged) as Hpushed.
      apply aged_from_length in Hpushed. lia.
Qed.

End TrailFacts.

(** After twenty samples in a row the trail holds 8 points, the newest with
    0.88 of its life left. *)
Example sweep_trail :
  let a := fold_left (fun s m => trailTick no_hypot (Some m) s) sweep in_play in
  length (trailRef a) = 8%nat
  /\ option_map tp_life (hd_error (trailRef a)) = Some 0.88%float.
Proof. vm_compute. split; reflexivity. Qed.

(** ** The whole tick *)

Section TickFacts.
Variable Math_random : nat -> float.
Variable Math_cos Math_sin : float -> float.
Variable Math_hypot : float -> float -> float.
Variable floor_index : float -> option nat.
Variable toString36 : float -> string.

Abbreviation updateObject' := (updateObject Math_random Math_cos Math_sin).
Abbreviation forEachObject' := (forEachObject Math_random Math_cos Math_sin).
Abbreviation spawnObject' := (spawnObject Math_random floor_index toString36).
Abbreviation gameLoop' :=
  (gameLoop Math_random Math_cos Math_sin Math_hypot floor_index toString36).

Lemma targetHit_entities (a : App) :
  trailRef (targetHit a) = trailRef a /\ objectsRef (targetHit a) = objectsRef a.
Proof.
  unfold targetHit, incrementCombo, setTimeout, clearTimeout, setScore, setCombo, playSound.
  cbn -[Z.add Z.mul Z.gtb].
  destruct (comboRef a + 1 >? 1)%Z; cbn -[Z.add Z.mul Z.gtb];
    destruct (comboTimerRef a) as [[|id]|]; split; reflexivity.
Qed.

Lemma distractorHit_entities (a : App) :
  trailRef (distractorHit a) = trailRef a /\ objectsRef (distractorHit a) = objectsRef a.
Proof.
  unfold distractorHit, setLives, setCombo, playSound, setGameState.
  cbn -[Z.sub Z.leb].
  destruct (livesRef a - 1 <=? 0)%Z; split; reflexivity.
Qed.

Lemma updateObject_trail (obj : GameObject float) (a : App) :
  trailRef (snd (updateObject' obj a)) = trailRef a.
Proof.
  rewrite updateObject_unfold.
  destruct (negb (obj_sliced obj) && (2 <? length (trailRef a))%nat)%bool; [|reflexivity].
  destruct (firstHit (trailRef a) (moveObject obj)); [|reflexivity].
  unfold slice. cbn [snd].
  destruct (createSplatter_shape Math_random Math_cos Math_sin
              (obj_x (markSliced (moveObject obj))) (obj_y (markSliced (moveObject obj)))
              (obj_color (markSliced (moveObject obj))) a) as [burst [_ ->]].
  destruct (obj_isTarget (markSliced (moveObject obj))).
  - rewrite (proj1 (targetHit_entities _)). reflexivity.
  - rewrite (proj1 (distractorHit_entities _)). reflexivity.
Qed.

Lemma forEachObject_trail (objs : list (GameObject float)) (a : App) :
  trailRef (snd (forEachObject' objs a)) = trailRef a.
Proof.
  revert a. induction objs as [|obj objs IH]; intros a; cbn [forEachObject]; [reflexivity|].
  pose proof (updateObject_trail obj a) as Hobj.
  destruct (updateObject' obj a) as [obj' a1]. cbn [snd] in Hobj.
  specialize (IH a1). destruct (forEachObject' objs a1) as [rest a2]. cbn [snd] in *.
  congruence.
Qed.

Lemma spawnObject_entities (width height : float) (a : App) :
  trailRef (spawnObject' width height a) = trailRef a
  /\ exists spawned,
       objectsRef (spawnObject' width height a) = objectsRef a ++ spawned
       /\ Forall (fun obj => obj_sliced obj = false) spawned.
Proof.
  unfold spawnObject. destruct (levelData a) as [level|].
  - split; [reflexivity|]. eexists [_]. split; [reflexivity|].
    constructor; [reflexivity|constructor].
  - split; [reflexivity|]. exists []. split; [now rewrite app_nil_r|constructor].
Qed.

(** In Playing, with a canvas, the trail after [gameLoop] is the trail after
    the Trail Builder's part of the tick. *)
Lemma gameLoop_trail (time : float) (cv : Canvas) (camera : option Capture) (a : App) :
  gameState a = PLAYING ->
  trailRef (gameLoop' time (Some cv) camera a) =
  trailRef (trailTick Math_hypot (fst (detectMotion camera a)) (snd (detectMotion camera a))).
Proof.
  intros Hplaying. unfold gameLoop. rewrite Hplaying. cbn [GameState_eqb negb].
  destruct (detectMotion camera a) as [motion a1]. cbn [fst snd].
  set (a2 := set_particlesRef _ (trailTick Math_hypot motion a1)).
  pose proof (forEachObject_trail (objectsRef a2) a2) as Hloop.
  destruct (forEachObject' (objectsRef a2) a2) as [objs a3]. cbn [snd] in Hloop.
  match goal with |- context [if ?c then _ else _] => destruct c end.
  - cbn [trailRef set_lastSpawnTimeRef].
    rewrite (proj1 (spawnObject_entities _ _ _)). cbn [trailRef set_objectsRef].
    rewrite Hloop. reflexivity.
  - cbn [trailRef set_objectsRef]. rewrite Hloop. reflexivity.
Qed.

(** In Playing, with a canvas, no object that [gameLoop] leaves in the
    active set is sliced: the objects sliced in a tick are gone when it
    ends. *)
Lemma gameLoop_drops_sliced (time : float) (cv : Canvas) (camera : option Capture) (a : App) :
  gameState a = PLAYING ->
  Forall (fun obj => obj_sliced obj = false) (objectsRef (gameLoop' time (Some cv) camera a)).
Proof.
  intros Hplaying. unfold gameLoop. rewrite Hplaying. cbn [GameState_eqb negb].
  destruct (detectMotion camera a) as [motion a1].
  set (a2 := set_particlesRef _ (trailTick Math_hypot motion a1)).
  destruct (forEachObject' (objectsRef a2) a2) as [objs a3].
  set (kept := filter _ objs).
  assert (Hkept : Forall (fun obj => obj_sliced obj = false) kept).
  { apply Forall_forall. intros obj Hin. apply filter_In in Hin.
    destruct Hin as [_ Hkeep]. apply andb_prop in Hkeep.
    apply negb_true_iff. exact (proj2 Hkeep). }
  match goal with |- context [if ?c then _ else _] => destruct c end.
  - cbn [objectsRef set_lastSpawnTimeRef].
    destruct (spawnObject_entities (cv_width cv) (cv_height cv) (set_objectsRef kept a3))
      as [_ [spawned [-> Hspawned]]].
    cbn [objectsRef set_objectsRef]. apply Forall_app. split; assumption.
  - exact Hkept.
Qed.

End TickFacts.

(** A tick on a round with one target on the blade: the target is sliced and
    leaves the active set, sixteen particles fly, the score is 10, the combo
    1, one cue is played, one timeout is pending and the three trail points
    have faded once. *)
Example one_target_tick :
  let a := gameLoop half no_trig no_trig no_hypot no_index no_digits 0 (Some playfield)
             None one_target in
  objectsRef a = []
  /\ length (particlesRef a) = 16%nat
  /\ (scoreRef a, score a, comboRef a, combo a, livesRef a) = (10, 10, 1, 1, 3)%Z
  /\ played a = [snd_hit]
  /\ pendingTimeouts a = [(1%nat, 1500%Z)]
  /\ map tp_life (trailRef a) = [0.88; 0.88; 0.88]%float
  /\ gameState a = PLAYING.
Proof. vm_compute. repeat split. Qed.

(** The numbers behind the tangent bubble: from (20,0) the closest point
    comes out as (41,28) and the squared distance as 2500; from (86,88) the
    closest point comes out a rounding error away and the squared distance
    just below 2500.  In exact arithmetic there is no hit either way. *)
Example tangent_bubble :
  (Spec.closest_point (20, 0) (86, 88) (1, 58) = (41, 28)
   /\ Spec.sq_dist (1, 58) (Spec.closest_point (20, 0) (86, 88) (1, 58)) = 2500
   /\ Spec.closest_point (86, 88) (20, 0) (1, 58) = (41, 28.000000000000007)
   /\ Spec.sq_dist (1, 58) (Spec.closest_point (86, 88) (20, 0) (1, 58))
      = 2499.9999999999995)%float
  /\ checkCollision (exact_point (mkTrailPoint 20 0 1)) (exact_point (mkTrailPoint 86 88 1))
       (exact_object tangent_bubbleQ) = false
  /\ checkCollision (exact_point (mkTrailPoint 86 88 1)) (exact_point (mkTrailPoint 20 0 1))
       (exact_object tangent_bubbleQ) = false.
Proof. vm_compute. repeat split. Qed.

(** * Further properties *)

Module F64Order.
Import F64.
Local Open Scope float_scope.

Lemma SFcompare_antisym (x y : spec_float) :
  SFcompare y x = option_map CompOpp (SFcompare x y).
Proof.
  destruct x as [sx|sx| |sx mx ex], y as [sy|sy| |sy my ey]; cbn;
    try reflexivity;
    try (destruct sx; reflexivity); try (destruct sy; reflexivity);
    try (destruct sx, sy; reflexivity).
  destruct sx, sy; cbn; try reflexivity;
    rewrite (Z.compare_antisym ex ey); destruct (ex ?= ey)%Z; cbn; try reflexivity;
    change (Pos.compare_cont Eq my mx) with (Pos.compare_cont (CompOpp Eq) my mx);
    rewrite <- Pos.compare_cont_antisym;
    destruct (Pos.compare_cont Eq mx my); reflexivity.
Qed.

Lemma not_NaN_is_nan (a : float) : is_nan a = false -> ~ NaN a.
Proof.
  unfold NaN, is_nan. rewrite FloatAxioms.eqb_spec. intros Hnan Heq.
  rewrite Heq in Hnan. discriminate Hnan.
Qed.

Lemma compare_defined (a b : float) :
  is_nan a = false -> is_nan b = false ->
  exists c, SFcompare (Prim2SF a) (Prim2SF b) = Some c.
Proof.
  intros Ha Hb. apply not_NaN_is_nan in Ha, Hb. unfold NaN in *.
  destruct (Prim2SF a) as [sa|sa| |sa ma ea]; try contradiction;
    destruct (Prim2SF b) as [sb|sb| |sb mb eb]; try contradiction;
    cbn; eexists; reflexivity.
Qed.

Lemma ltb_leb (a b : float) : (a <? b) = true -> (a <=? b) = true.
Proof.
  rewrite ltb_spec, leb_spec. unfold SFltb, SFleb.
  destruct (SFcompare (Prim2SF a) (Prim2SF b)) as [[| |]|]; congruence.
Qed.

Lemma leb_refl (a : float) : is_nan a = false -> (a <=? a) = true.
Proof.
  unfold is_nan. rewrite FloatAxioms.eqb_spec, leb_spec. unfold SFeqb, SFleb.
  destruct (SFcompare (Prim2SF a) (Prim2SF a)) as [[| |]|]; cbn; congruence.
Qed.

(** Two numbers, neither NaN and neither below the other, are below or equal
    to each other both ways. *)
Lemma not_ltb_leb (a b : float) :
  is_nan a = false -> is_nan b = false ->
  (a <? b) = false -> (b <? a) = false ->
  (a <=? b) = true /\ (b <=? a) = true.
Proof.
  intros Ha Hb. rewrite !ltb_spec, !leb_spec. unfold SFltb, SFleb.
  rewrite (SFcompare_antisym (Prim2SF a) (Prim2SF b)).
  destruct (compare_defined a b Ha Hb) as [c ->]. cbn.
  destruct c; cbn; intros; split; congruence.
Qed.

Lemma min_cases (a b : float) :
  is_nan a = false -> is_nan b = false ->
  (F64.min a b = a \/ F64.min a b = b)
  /\ (F64.min a b <=? a) = true /\ (F64.min a b <=? b) = true.
Proof.
  intros Ha Hb. unfold F64.min. rewrite Ha, Hb. cbn [orb].
  destruct (a <? b) eqn:Hab.
  - split; [now left|]. split; [now apply leb_refl|now apply ltb_leb].
  - destruct (b <? a) eqn:Hba.
    + split; [now right|]. split; [now apply ltb_leb|now apply leb_refl].
    + destruct (not_ltb_leb a b Ha Hb Hab Hba) as [Hle Hge].
      destruct (get_sign a).
      * split; [now left|]. split; [now apply leb_refl|exact Hle].
      * split; [now right|]. split; [exact Hge|now apply leb_refl].
Qed.

Lemma max_cases (a b : float) :
  is_nan a = false -> is_nan b = false ->
  (F64.max a b = a \/ F64.max a b = b)
  /\ (a <=? F64.max a b) = true /\ (b <=? F64.max a b) = true.
Proof.
  intros Ha Hb. unfold F64.max. rewrite Ha, Hb. cbn [orb].
  destruct (a <? b) eqn:Hab.
  - split; [now right|]. split; [now apply ltb_leb|now apply leb_refl].
  - destruct (b <? a) eqn:Hba.
    + split; [now left|]. split; [now apply leb_refl|now apply ltb_leb].
    + destruct (not_ltb_leb a b Ha Hb Hab Hba) as [Hle Hge].
      destruct (get_sign a).
      * split; [now right|]. split; [exact Hle|now apply leb_refl].
      * split; [now left|]. split; [now apply leb_refl|exact Hge].
Qed.

(** [Math.max(lo, Math.min(hi, v))] for bounds in order: NaN when [v] is,
    and otherwise a number between the bounds. *)
Lemma clamp_range (lo hi v : float) :
  is_nan lo = false -> is_nan hi = false -> (lo <=? hi) = true ->
  let r := F64.max lo (F64.min hi v) in
  (is_nan v = true /\ is_nan r = true)
  \/ (is_nan v = false /\ (lo <=? r) = true /\ (r <=? hi) = true).
Proof.
  intros Hlo Hhi Horder r. subst r.
  destruct (is_nan v) eqn:Hv.
  - left. split; [reflexivity|].
    unfold F64.max, F64.min. rewrite Hv, Hlo, Hhi. cbn. reflexivity.
  - right. split; [reflexivity|].
    destruct (min_cases hi v Hhi Hv) as (Hm & Hmhi & _).
    assert (Hmn : is_nan (F64.min hi v) = false) by (destruct Hm as [-> | ->]; assumption).
    destruct (max_cases lo (F64.min hi v) Hlo Hmn) as (Hr & Hrlo & _).
    split; [exact Hrlo|].
    destruct Hr as [-> | ->]; assumption.
Qed.

End F64Order.

(** With a previous frame in the slot and more qualifying pixels than the
    gate, [detectMotion] answers with a sample. *)
Lemma detectMotion_sample (cap : Capture) (prevData : list Z) (a : App) :
  prevFrameDataRef a = Some prevData ->
  (MIN_MOVEMENT_PIXELS < Z.of_nat (Spec.qualifying_pixels (cap_data cap) prevData))%Z ->
  exists x y, fst (detectMotion (Some cap) a) = Some (x, y)
              /\ on_screen 640 x /\ on_screen 480 y.
Proof.
  intros Hprev Hcount. unfold detectMotion. rewrite Hprev.
  pose proof (scanPixels_qualifying (cap_data cap) prevData (cap_width cap)) as Hscan.
  destruct (scanPixels (length (cap_data cap)) (cap_data cap) prevData (cap_width cap) 0 0 0 0)
    as [[sumX sumY] count].
  cbn [snd] in Hscan. subst count.
  assert (Hgate : (Z.of_nat (Spec.qualifying_pixels (cap_data cap) prevData)
                   >? MIN_MOVEMENT_PIXELS)%Z = true).
  { rewrite Z.gtb_ltb. apply Z.ltb_lt. exact Hcount. }
  rewrite Hgate. cbv zeta. cbn [fst]. eexists. eexists. split; [reflexivity|].
  split.
  - match goal with |- on_screen _ (F64.max _ (F64.min _ ?v)) =>
      destruct (F64Order.clamp_range 0 640 v eq_refl eq_refl eq_refl) as [[_ Hn]|[_ Hr]]
    end; [left; exact Hn|right; exact Hr].
  - match goal with |- on_screen _ (F64.max _ (F64.min _ ?v)) =>
      destruct (F64Order.clamp_range 0 480 v eq_refl eq_refl eq_refl) as [[_ Hn]|[_ Hr]]
    end; [left; exact Hn|right; exact Hr].
Qed.

(** X1. [detectMotion] answers with a sample exactly when a frame was
    captured, a previous frame is in the slot and more than 45 pixels
    qualify: 45 qualifying pixels are still no motion, 46 are. *)
Theorem detectMotion_threshold (camera : option Capture) (a : App) :
  fst (detectMotion camera a) <> None <->
  exists cap prevData,
    camera = Some cap /\ prevFrameDataRef a = Some prevData
    /\ (MIN_MOVEMENT_PIXELS < Z.of_nat (Spec.qualifying_pixels (cap_data cap) prevData))%Z.
Proof.
  split.
  - intros Hsome. destruct camera as [cap|]; [|now cbn in Hsome].
    destruct (prevFrameDataRef a) as [prevData|] eqn:Hprev.
    + exists cap, prevData. repeat split; try reflexivity.
      destruct (Z_lt_le_dec MIN_MOVEMENT_PIXELS
                  (Z.of_nat (Spec.qualifying_pixels (cap_data cap) prevData)))
        as [Hlt|Hle]; [exact Hlt|].
      rewrite (detectMotion_gate cap prevData a Hprev Hle) in Hsome. now cbn in Hsome.
    + unfold detectMotion in Hsome. rewrite Hprev in Hsome. now cbn in Hsome.
  - intros (cap & prevData & -> & Hprev & Hcount).
    destruct (detectMotion_sample cap prevData a Hprev Hcount) as (x & y & -> & _).
    discriminate.
Qed.

(** The state after [detectMotion]. *)
Lemma detectMotion_state (camera : option Capture) (a : App) :
  snd (detectMotion camera a) =
    match camera with
    | Some cap => set_prevFrameDataRef (Some (cap_data cap)) a
    | None => a
    end.
Proof.
  unfold detectMotion. destruct camera as [cap|]; [|reflexivity].
  destruct (prevFrameDataRef a) as [prevData|]; [|reflexivity].
  destruct (scanPixels _ _ _ _ _ _ _ _) as [[sumX sumY] count].
  destruct (count >? MIN_MOVEMENT_PIXELS)%Z; reflexivity.
Qed.

(** X2. [detectMotion] writes nothing but the previous-frame slot: when a
    frame was captured the slot holds that frame afterwards, sample or no
    sample, and every other field of the state is as before; when none was
    captured the state is untouched.  With an empty slot (the first call)
    there is no sample. *)
Theorem detectMotion_slot (camera : option Capture) (a : App) :
  snd (detectMotion camera a) =
    match camera with
    | Some cap => set_prevFrameDataRef (Some (cap_data cap)) a
    | None => a
    end
  /\ fst (detectMotion camera (set_prevFrameDataRef None a)) = None.
Proof.
  split; [apply detectMotion_state|].
  destruct camera as [cap|]; reflexivity.
Qed.

(** X3. Every sample of [detectMotion] is clamped to the screen: each
    coordinate is NaN or lies between 0 and 640 (x) or 0 and 480 (y). *)
Theorem detectMotion_on_screen (camera : option Capture) (a : App) (x y : float) :
  fst (detectMotion camera a) = Some (x, y) -> on_screen 640 x /\ on_screen 480 y.
Proof.
  intros Hsample.
  destruct camera as [cap|]; [|discriminate Hsample].
  destruct (prevFrameDataRef a) as [prevData|] eqn:Hprev.
  - destruct (Z_lt_le_dec MIN_MOVEMENT_PIXELS
                (Z.of_nat (Spec.qualifying_pixels (cap_data cap) prevData)))
      as [Hcount|Hle].
    + destruct (detectMotion_sample cap prevData a Hprev Hcount)
        as (x' & y' & Hs & Hx & Hy).
      rewrite Hs in Hsample. injection Hsample as <- <-. split; assumption.
    + rewrite (detectMotion_gate cap prevData a Hprev Hle) in Hsample.
      discriminate Hsample.
  - unfold detectMotion in Hsample. rewrite Hprev in Hsample. cbn in Hsample.
    discriminate Hsample.
Qed.



(** ** Stages of a tick *)

Lemma same_round_refl (a : App) : same_round a a.
Proof. unfold same_round. repeat split; reflexivity. Qed.

Lemma same_round_sym (a b : App) : same_round a b -> same_round b a.
Proof. unfold same_round. intuition congruence. Qed.

Lemma same_round_trans (a b c : App) : same_round a b -> same_round b c -> same_round a c.
Proof. unfold same_round. intuition congruence. Qed.

Lemma round_ok_same (a b : App) : same_round a b -> round_ok a -> round_ok b.
Proof.
  unfold same_round, round_ok.
  intros (Hg & _ & _ & _ & _ & Hs & Hc & Hl & Hsr & Hcr & Hlr & _).
  rewrite <- Hg, <- Hs, <- Hc, <- Hl, <- Hsr, <- Hcr, <- Hlr. trivial.
Qed.

Lemma timers_ok_same (a b : App) : same_round a b -> timers_ok a -> timers_ok b.
Proof.
  unfold same_round, timers_ok.
  intros (_ & _ & _ & _ & _ & _ & _ & _ & _ & _ & _ & Ht & Hp & Hn).
  rewrite <- Ht, <- Hp, <- Hn. trivial.
Qed.

Section SplatterFacts.
Variable Math_random : nat -> float.
Variable Math_cos Math_sin : float -> float.

Lemma pushParticle_fresh (x y : float) (color : string) (a : App) :
  exists p, fresh_particle x y color p
            /\ pushParticle Math_random Math_cos Math_sin x y color a =
               set_particlesRef (particlesRef a ++ [p])
                 (set_randomDraws (3 + randomDraws a) a).
Proof. eexists. split; [|reflexivity]. repeat split. Qed.

Lemma splatter_fresh (n : nat) (x y : float) (color : string) (a : App) :
  exists burst,
    length burst = n /\ Forall (fresh_particle x y color) burst
    /\ Nat.iter n (pushParticle Math_random Math_cos Math_sin x y color) a =
       set_particlesRef (particlesRef a ++ burst) (set_randomDraws (3 * n + randomDraws a) a).
Proof.
  induction n as [|n IH].
  - exists []. split; [reflexivity|]. split; [constructor|].
    destruct a; cbn. rewrite app_nil_r. reflexivity.
  - destruct IH as (burst & Hlen & Hfresh & IH). rewrite Nat.iter_succ, IH.
    destruct (pushParticle_fresh x y color
                (set_particlesRef (particlesRef a ++ burst)
                   (set_randomDraws (3 * n + randomDraws a) a))) as (p & Hp & Hpush).
    exists (burst ++ [p]). split; [|split].
    + rewrite length_app, Hlen. cbn. lia.
    + apply Forall_app. split; [exact Hfresh|]. constructor; [exact Hp|constructor].
    + rewrite Hpush. destruct a; unfold set_particlesRef, set_randomDraws; simpl.
      f_equal; [symmetry; apply app_assoc | lia].
Qed.

Lemma createSplatter_splattered (x y : float) (color : string) (a : App) :
  exists burst,
    length burst = 16%nat /\ Forall (fresh_particle x y color) burst
    /\ createSplatter Math_random Math_cos Math_sin x y color a = splattered burst a.
Proof. apply (splatter_fresh 16). Qed.

(** X4. [createSplatter] pushes sixteen particles, all at the given place,
    with the given colour and a full life, after the particles that were
    there; it draws 48 random numbers and leaves the round, the objects and
    the trail as they were. *)
Theorem createSplatter_burst (x y : float) (color : string) (a : App) :
  let a' := createSplatter Math_random Math_cos Math_sin x y color a in
  exists burst,
    length burst = 16%nat /\ Forall (fresh_particle x y color) burst
    /\ particlesRef a' = particlesRef a ++ burst
    /\ randomDraws a' = (48 + randomDraws a)%nat
    /\ same_round a a'
    /\ objectsRef a' = objectsRef a /\ trailRef a' = trailRef a
    /\ played a' = played a.
Proof.
  intros a'. subst a'.
  destruct (createSplatter_splattered x y color a) as (burst & Hlen & Hfresh & ->).
  exists burst. split; [exact Hlen|]. split; [exact Hfresh|].
  unfold same_round. repeat split.
Qed.

(** What the turn of an object does to the state: nothing, or a splatter at
    the object followed by the scoring of the hit. *)
Lemma updateObject_state (obj : GameObject float) (a : App) :
  snd (updateObject Math_random Math_cos Math_sin obj a) = a
  \/ exists burst,
       length burst = 16%nat
       /\ Forall (fresh_particle (obj_x (moveObject obj)) (obj_y (moveObject obj))
                    (obj_color obj)) burst
       /\ obj_sliced obj = false
       /\ snd (updateObject Math_random Math_cos Math_sin obj a) =
          (if obj_isTarget obj then targetHit (splattered burst a)
           else distractorHit (splattered burst a)).
Proof.
  rewrite updateObject_unfold.
  destruct (obj_sliced obj) eqn:Hs; [left; reflexivity|]. cbn [negb andb].
  destruct (2 <? length (trailRef a))%nat; [|left; reflexivity].
  destruct (firstHit (trailRef a) (moveObject obj)); [|left; reflexivity].
  right. unfold slice. cbn [snd].
  destruct (createSplatter_splattered (obj_x (markSliced (moveObject obj)))
              (obj_y (markSliced (moveObject obj)))
              (obj_color (markSliced (moveObject obj))) a) as (burst & Hlen & Hfresh & ->).
  exists burst. repeat split; try assumption.
Qed.

Lemma forEachObject_preserves (P : App -> Prop) :
  (forall obj a, P a -> P (snd (updateObject Math_random Math_cos Math_sin obj a))) ->
  forall objs a, P a -> P (snd (forEachObject Math_random Math_cos Math_sin objs a)).
Proof.
  intros Hstep objs. induction objs as [|obj objs IH]; intros a Ha; cbn [forEachObject].
  - exact Ha.
  - specialize (Hstep obj a Ha).
    destruct (updateObject Math_random Math_cos Math_sin obj a) as [obj' a1].
    cbn [snd] in Hstep. specialize (IH a1 Hstep).
    destruct (forEachObject Math_random Math_cos Math_sin objs a1) as [rest a2].
    exact IH.
Qed.

Lemma forEachObject_related (R : App -> App -> Prop) :
  (forall a, R a a) ->
  (forall a b c, R a b -> R b c -> R a c) ->
  (forall obj a, R a (snd (updateObject Math_random Math_cos Math_sin obj a))) ->
  forall objs a, R a (snd (forEachObject Math_random Math_cos Math_sin objs a)).
Proof.
  intros Hrefl Htrans Hstep objs.
  induction objs as [|obj objs IH]; intros a; cbn [forEachObject].
  - apply Hrefl.
  - specialize (Hstep obj a).
    destruct (updateObject Math_random Math_cos Math_sin obj a) as [obj' a1].
    cbn [snd] in Hstep. specialize (IH a1).
    destruct (forEachObject Math_random Math_cos Math_sin objs a1) as [rest a2].
    cbn [snd] in *. exact (Htrans _ _ _ Hstep IH).
Qed.

(** The pass keeps the objects in their order; what it returns for an
    object is the object moved, unless it is sliced. *)
Lemma updateObject_moves (obj : GameObject float) (a : App) :
  fst (updateObject Math_random Math_cos Math_sin obj a) = moveObject obj
  \/ obj_sliced (fst (updateObject Math_random Math_cos Math_sin obj a)) = true.
Proof.
  rewrite updateObject_unfold.
  destruct (negb (obj_sliced obj) && (2 <? length (trailRef a))%nat)%bool;
    [destruct (firstHit (trailRef a) (moveObject obj))|]; cbn; auto.
Qed.

Lemma forEachObject_moves (objs : list (GameObject float)) (a : App) :
  Forall2 (fun obj obj' => obj' = moveObject obj \/ obj_sliced obj' = true)
    objs (fst (forEachObject Math_random Math_cos Math_sin objs a)).
Proof.
  revert a. induction objs as [|obj objs IH]; intros a; cbn [forEachObject].
  - constructor.
  - pose proof (updateObject_moves obj a) as Hobj.
    destruct (updateObject Math_random Math_cos Math_sin obj a) as [obj' a1].
    specialize (IH a1).
    destruct (forEachObject Math_random Math_cos Math_sin objs a1) as [rest a2].
    cbn [fst] in *. constructor; assumption.
Qed.

End SplatterFacts.

Lemma splattered_same (burst : list Particle) (a : App) :
  same_round a (splattered burst a)
  /\ trailRef (splattered burst a) = trailRef a
  /\ objectsRef (splattered burst a) = objectsRef a
  /\ played (splattered burst a) = played a
  /\ particlesRef (splattered burst a) = particlesRef a ++ burst.
Proof. unfold same_round. repeat split; reflexivity. Qed.

Lemma targetHit_rest (a : App) :
  particlesRef (targetHit a) = particlesRef a
  /\ (played (targetHit a) = snd_hit :: played a
      \/ played (targetHit a) = snd_hit :: snd_combo :: played a)
  /\ levelData (targetHit a) = levelData a /\ errorMsg (targetHit a) = errorMsg a
  /\ permissionGranted (targetHit a) = permissionGranted a
  /\ phaseLog (targetHit a) = phaseLog a.
Proof.
  unfold targetHit, incrementCombo, setTimeout, clearTimeout, setScore, setCombo, playSound.
  cbn -[Z.add Z.mul Z.gtb].
  destruct (comboRef a + 1 >? 1)%Z; cbn -[Z.add Z.mul Z.gtb];
    destruct (comboTimerRef a) as [[|id]|]; repeat split; auto.
Qed.

Lemma distractorHit_rest (a : App) :
  particlesRef (distractorHit a) = particlesRef a
  /\ played (distractorHit a) = snd_wrong :: played a
  /\ levelData (distractorHit a) = levelData a /\ errorMsg (distractorHit a) = errorMsg a
  /\ permissionGranted (distractorHit a) = permissionGranted a
  /\ nextTimeoutId (distractorHit a) = nextTimeoutId a
  /\ (phaseLog (distractorHit a) = phaseLog a
      \/ phaseLog (distractorHit a) = GAME_OVER :: phaseLog a).
Proof.
  unfold distractorHit, setLives, setCombo, playSound, setGameState.
  cbn -[Z.sub Z.leb].
  destruct (livesRef a - 1 <=? 0)%Z; repeat split; auto.
Qed.

(** A target hit restarts the debounce: whatever was pending under the
    handle in [comboTimerRef] is cleared and one new timeout of 1500 ms is
    set under a fresh handle. *)
Lemma targetHit_timers (a : App) :
  timers_ok a ->
  comboTimerRef (targetHit a) = Some (nextTimeoutId a)
  /\ pendingTimeouts (targetHit a) = [(nextTimeoutId a, COMBO_TIMEOUT_MS)]
  /\ nextTimeoutId (targetHit a) = S (nextTimeoutId a).
Proof.
  intros [Hnext Hpending].
  unfold targetHit, incrementCombo, setTimeout, clearTimeout, setScore, setCombo, playSound.
  cbn -[Z.add Z.mul Z.gtb].
  destruct (comboRef a + 1 >? 1)%Z; cbn -[Z.add Z.mul Z.gtb];
    destruct Hpending as [Hnone|(id & Href & Hid & Hone)];
    try rewrite Href; try rewrite Hnone; try rewrite Hone;
    try (destruct (comboTimerRef a) as [[|id']|]);
    try (destruct id as [|id]; [lia|]);
    cbn -[Z.add Z.mul Z.gtb]; try rewrite Hnone; try rewrite Hone; cbn;
    try rewrite Nat.eqb_refl; cbn; repeat split; reflexivity.
Qed.

Lemma targetHit_round_ok (a : App) : round_ok a -> round_ok (targetHit a).
Proof.
  unfold round_ok. intros ((Ms & Mc & Ml) & (Hs & Hc & Hl) & Hplay & Hover).
  destruct (targetHit_round a) as (Sr & Sd & Cr & Cd & Lr & Ld & G & _).
  rewrite Sr, Sd, Cr, Cd, Lr, Ld, G.
  split; [auto|]. split; [lia|]. split; assumption.
Qed.

Lemma distractorHit_round_ok (a : App) : round_ok a -> round_ok (distractorHit a).
Proof.
  unfold round_ok. intros ((Ms & Mc & Ml) & (Hs & Hc & Hl) & Hplay & Hover).
  destruct (distractorHit_round a) as (Lr & Ld & Cr & Cd & Sr & Sd & _ & _ & G & _).
  rewrite Sr, Sd, Cr, Cd, Lr, Ld, G.
  split; [auto|]. split; [lia|].
  destruct (livesRef a - 1 <=? 0)%Z eqn:Hz.
  - apply Z.leb_le in Hz. split; [intros Hg; discriminate Hg|intros _; exact Hz].
  - apply Z.leb_gt in Hz. split; [intros _; lia|].
    intros Hg. specialize (Hover Hg). lia.
Qed.

Lemma distractorHit_timers_ok (a : App) : timers_ok a -> timers_ok (distractorHit a).
Proof.
  unfold timers_ok.
  destruct (distractorHit_round a) as (_ & _ & _ & _ & _ & _ & P & T & _).
  destruct (distractorHit_rest a) as (_ & _ & _ & _ & _ & N & _).
  rewrite P, T, N. trivial.
Qed.

Lemma targetHit_timers_ok (a : App) : timers_ok a -> timers_ok (targetHit a).
Proof.
  intros Hok. destruct (targetHit_timers a Hok) as (T & P & N).
  destruct Hok as [Hnext _]. unfold timers_ok. rewrite T, P, N.
  split; [lia|]. right. exists (nextTimeoutId a). repeat split; lia.
Qed.

Section TickStages.
Variable Math_random : nat -> float.
Variable Math_cos Math_sin : float -> float.
Variable Math_hypot : float -> float -> float.
Variable floor_index : float -> option nat.
Variable toString36 : float -> string.

Abbreviation updateObject' := (updateObject Math_random Math_cos Math_sin).
Abbreviation forEachObject' := (forEachObject Math_random Math_cos Math_sin).
Abbreviation gameLoop' :=
  (gameLoop Math_random Math_cos Math_sin Math_hypot floor_index toString36).

Lemma updateObject_round_ok (obj : GameObject float) (a : App) :
  round_ok a -> round_ok (snd (updateObject' obj a)).
Proof.
  intros Hok.
  destruct (updateObject_state Math_random Math_cos Math_sin obj a)
    as [-> | (burst & _ & _ & _ & ->)]; [exact Hok|].
  pose proof (round_ok_same a (splattered burst a) (proj1 (splattered_same burst a)) Hok).
  destruct (obj_isTarget obj);
    [now apply targetHit_round_ok | now apply distractorHit_round_ok].
Qed.

Lemma updateObject_timers_ok (obj : GameObject float) (a : App) :
  timers_ok a -> timers_ok (snd (updateObject' obj a)).
Proof.
  intros Hok.
  destruct (updateObject_state Math_random Math_cos Math_sin obj a)
    as [-> | (burst & _ & _ & _ & ->)]; [exact Hok|].
  pose proof (timers_ok_same a (splattered burst a) (proj1 (splattered_same burst a)) Hok).
  destruct (obj_isTarget obj);
    [now apply targetHit_timers_ok | now apply distractorHit_timers_ok].
Qed.

Lemma fresh_alive (x y : float) (color : string) (burst : list Particle) :
  Forall (fresh_particle x y color) burst -> alive_particles burst.
Proof.
  unfold alive_particles. intros Hfresh. eapply Forall_impl; [|exact Hfresh].
  intros p (_ & _ & Hlife & _). rewrite Hlife. reflexivity.
Qed.

Lemma updateObject_particles_alive (obj : GameObject float) (a : App) :
  alive_particles (particlesRef a) ->
  alive_particles (particlesRef (snd (updateObject' obj a))).
Proof.
  intros Halive.
  destruct (updateObject_state Math_random Math_cos Math_sin obj a)
    as [-> | (burst & _ & Hfresh & _ & ->)]; [exact Halive|].
  assert (Hboth : alive_particles (particlesRef (splattered burst a))).
  { cbn. apply Forall_app. split; [exact Halive|]. eapply fresh_alive, Hfresh. }
  destruct (obj_isTarget obj).
  - rewrite (proj1 (targetHit_rest _)). exact Hboth.
  - rewrite (proj1 (distractorHit_rest _)). exact Hboth.
Qed.

Lemma trailTick_effects (motion : option (float * float)) (a : App) :
  same_round a (trailTick Math_hypot motion a)
  /\ particlesRef (trailTick Math_hypot motion a) = particlesRef a
  /\ objectsRef (trailTick Math_hypot motion a) = objectsRef a
  /\ (played (trailTick Math_hypot motion a) = played a
      \/ played (trailTick Math_hypot motion a) = snd_slash :: played a)
  /\ lastSpawnTimeRef (trailTick Math_hypot motion a) = lastSpawnTimeRef a.
Proof.
  unfold trailTick, followMotion.
  destruct motion as [m|]; [|unfold same_round; cbn; repeat split; auto].
  destruct (swordPosRef a) as [sx sy].
  cbn [trailRef set_trailRef set_swordPosRef].
  destruct (trailRef a) as [|q [|q' rest]];
    try match goal with |- context [if ?c then _ else _] => destruct c end;
    unfold same_round; cbn; repeat split; auto.
Qed.

Lemma trailTick_slot (motion : option (float * float)) (frame : option (list Z)) (a : App) :
  trailRef (trailTick Math_hypot motion (set_prevFrameDataRef frame a))
  = trailRef (trailTick Math_hypot motion a).
Proof.
  rewrite !trailTick_trail. destruct motion as [m|]; [|reflexivity].
  unfold followMotion. cbn [swordPosRef set_prevFrameDataRef].
  destruct (swordPosRef a) as [sx sy].
  cbn [trailRef set_trailRef set_swordPosRef set_prevFrameDataRef].
  destruct (trailRef a) as [|q [|q' rest]];
    try match goal with |- context [if ?c then _ else _] => destruct c end;
    reflexivity.
Qed.

(** The parts of a tick in Playing: the state [a2] that the collision pass
    starts from, the objects and the state [a3] it ends with, and what the
    rest of the tick makes of them. *)
Lemma gameLoop_stages (time : float) (cv : Canvas) (camera : option Capture) (a : App) :
  gameState a = PLAYING ->
  exists a2 objs a3,
    (same_round a a2
     /\ trailRef a2 = trailRef (trailTick Math_hypot (fst (detectMotion camera a)) a)
     /\ particlesRef a2 = stepParticles (particlesRef a)
     /\ objectsRef a2 = objectsRef a
     /\ (played a2 = played a \/ played a2 = snd_slash :: played a)
     /\ lastSpawnTimeRef a2 = lastSpawnTimeRef a)
    /\ forEachObject' (objectsRef a) a2 = (objs, a3)
    /\ (same_round a3 (gameLoop' time (Some cv) camera a)
        /\ trailRef (gameLoop' time (Some cv) camera a) = trailRef a3
        /\ particlesRef (gameLoop' time (Some cv) camera a) = particlesRef a3
        /\ played (gameLoop' time (Some cv) camera a) = played a3
        /\ (if (SPAWN_RATE <? time - lastSpawnTimeRef a3)%float then
              lastSpawnTimeRef (gameLoop' time (Some cv) camera a) = time
              /\ match levelData a3 with
                 | None =>
                     objectsRef (gameLoop' time (Some cv) camera a) = filter (keeps cv) objs
                 | Some level =>
                     exists obj,
                       (obj_sliced obj = false /\ obj_radius obj = 50%float
                        /\ obj_y obj = (cv_height cv + 80)%float
                        /\ obj_rotation obj = 0%float)
                       /\ objectsRef (gameLoop' time (Some cv) camera a)
                          = filter (keeps cv) objs ++ [obj]
                 end
            else
              lastSpawnTimeRef (gameLoop' time (Some cv) camera a) = lastSpawnTimeRef a3
              /\ objectsRef (gameLoop' time (Some cv) camera a) = filter (keeps cv) objs)).
Proof.
  intros Hplaying. unfold gameLoop. rewrite Hplaying. cbn [GameState_eqb negb].
  pose proof (detectMotion_state camera a) as Hslot.
  destruct (detectMotion camera a) as [motion a1]. cbn [fst snd] in *.
  assert (Ha1 : same_round a a1 /\ particlesRef a1 = particlesRef a
                /\ objectsRef a1 = objectsRef a /\ played a1 = played a
                /\ lastSpawnTimeRef a1 = lastSpawnTimeRef a
                /\ trailRef (trailTick Math_hypot motion a1)
                   = trailRef (trailTick Math_hypot motion a)).
  { subst a1. destruct camera as [cap|].
    - rewrite trailTick_slot. unfold same_round. repeat split; reflexivity.
    - unfold same_round. repeat split; reflexivity. }
  destruct Ha1 as (R1 & P1 & O1 & S1 & L1 & T1).
  destruct (trailTick_effects motion a1) as (R2 & P2 & O2 & S2 & L2).
  set (t := trailTick Math_hypot motion a1) in *. clearbody t.
  set (a2 := set_particlesRef (stepParticles (particlesRef t)) t).
  exists a2.
  assert (Hobjs : objectsRef a2 = objectsRef a) by (subst a2; cbn; congruence).
  rewrite Hobjs.
  destruct (forEachObject' (objectsRef a) a2) as [objs a3].
  exists objs, a3. split; [|split; [reflexivity|]].
  - split; [|split; [|split; [|split; [|split]]]].
    + apply (same_round_trans a a1); [exact R1|].
      apply (same_round_trans a1 t); [exact R2|]. subst a2. unfold same_round.
      repeat split; reflexivity.
    + subst a2. cbn. exact T1.
    + subst a2. cbn. rewrite P2, P1. reflexivity.
    + reflexivity.
    + subst a2. cbn. rewrite S1 in S2. exact S2.
    + subst a2. cbn. congruence.
  - fold (keeps cv).
    cbn [lastSpawnTimeRef set_objectsRef].
    destruct (SPAWN_RATE <? time - lastSpawnTimeRef a3)%float.
    + unfold spawnObject. cbn [levelData set_objectsRef].
      destruct (levelData a3) as [level|];
        unfold same_round; cbn; repeat split; auto.
      eexists. split; [|reflexivity]. repeat split.
    + unfold same_round; cbn; repeat split; auto.
Qed.

(** The older reading of the last stage: nothing is spawned, or one
    unsliced object is. *)
Lemma gameLoop_spawned (time : float) (cv : Canvas) (camera : option Capture)
    (a a3 : App) (objs : list (GameObject float)) :
  (if (SPAWN_RATE <? time - lastSpawnTimeRef a3)%float then
     lastSpawnTimeRef (gameLoop' time (Some cv) camera a) = time
     /\ match levelData a3 with
        | None => objectsRef (gameLoop' time (Some cv) camera a) = filter (keeps cv) objs
        | Some level =>
            exists obj,
              (obj_sliced obj = false /\ obj_radius obj = 50%float
               /\ obj_y obj = (cv_height cv + 80)%float /\ obj_rotation obj = 0%float)
              /\ objectsRef (gameLoop' time (Some cv) camera a)
                 = filter (keeps cv) objs ++ [obj]
        end
   else
     lastSpawnTimeRef (gameLoop' time (Some cv) camera a) = lastSpawnTimeRef a3
     /\ objectsRef (gameLoop' time (Some cv) camera a) = filter (keeps cv) objs) ->
  objectsRef (gameLoop' time (Some cv) camera a) = filter (keeps cv) objs
  \/ exists obj, obj_sliced obj = false
                 /\ objectsRef (gameLoop' time (Some cv) camera a)
                    = filter (keeps cv) objs ++ [obj].
Proof.
  destruct (SPAWN_RATE <? time - lastSpawnTimeRef a3)%float.
  - intros [_ Hspawn]. destruct (levelData a3); [|now left].
    destruct Hspawn as (obj & (Hs & _) & Ho). right. now exists obj.
  - intros [_ Ho]. now left.
Qed.

End TickStages.

Lemma stepParticles_alive (ps : list Particle) : alive_particles (stepParticles ps).
Proof.
  unfold alive_particles, stepParticles. apply Forall_forall. intros p Hp.
  apply filter_In in Hp. exact (proj2 Hp).
Qed.

Lemma filter_keeps_unsliced (cv : Canvas) (objs : list (GameObject float)) :
  unsliced (filter (keeps cv) objs).
Proof.
  apply Forall_forall. intros obj Hin. apply filter_In in Hin.
  destruct Hin as [_ Hkeep]. apply andb_prop in Hkeep.
  apply negb_true_iff. exact (proj2 Hkeep).
Qed.

Section TickHealth.
Variable Math_random : nat -> float.
Variable Math_cos Math_sin : float -> float.
Variable Math_hypot : float -> float -> float.
Variable floor_index : float -> option nat.
Variable toString36 : float -> string.

Abbreviation updateObject' := (updateObject Math_random Math_cos Math_sin).
Abbreviation forEachObject' := (forEachObject Math_random Math_cos Math_sin).
Abbreviation gameLoop' :=
  (gameLoop Math_random Math_cos Math_sin Math_hypot floor_index toString36).

(** Outside Playing, or without a canvas, a frame does nothing. *)
Lemma gameLoop_idle (time : float) (canvas : option Canvas) (camera : option Capture) (a : App) :
  canvas = None \/ gameState a <> PLAYING -> gameLoop' time canvas camera a = a.
Proof.
  intros Hidle. unfold gameLoop. destruct canvas as [cv|]; [|reflexivity].
  destruct Hidle as [Hc|Hg]; [discriminate Hc|].
  destruct (gameState a); try reflexivity. now contradiction Hg.
Qed.

Lemma gameLoop_runs_or_idles (time : float) (canvas : option Canvas)
    (camera : option Capture) (a : App) :
  (exists cv, canvas = Some cv /\ gameState a = PLAYING)
  \/ gameLoop' time canvas camera a = a.
Proof.
  destruct canvas as [cv|]; [|right; apply gameLoop_idle; now left].
  destruct (gameState a) eqn:Hg; try (right; apply gameLoop_idle; right; congruence).
  left. now exists cv.
Qed.

Lemma gameLoop_healthy (time : float) (canvas : option Canvas) (camera : option Capture)
    (a : App) :
  healthy a -> healthy (gameLoop' time canvas camera a).
Proof.
  intros Hok.
  destruct (gameLoop_runs_or_idles time canvas camera a) as [(cv & Hcv & Hplaying)|Hidle];
    [subst canvas|rewrite Hidle; exact Hok].
  destruct Hok as (Hround & Htimers & Htrail & Hparts & Hobjs).
  destruct (gameLoop_stages Math_random Math_cos Math_sin Math_hypot floor_index toString36
              time cv camera a Hplaying)
    as (a2 & objs & a3 & (R2 & T2 & P2 & O2 & _) & Hloop & (R3 & T3 & P3 & _ & O3)).
  apply gameLoop_spawned in O3.
  assert (Ha3 : a3 = snd (forEachObject' (objectsRef a) a2)) by (rewrite Hloop; reflexivity).
  unfold healthy. split; [|split; [|split; [|split]]].
  - apply (round_ok_same a3); [exact R3|]. subst a3.
    apply (forEachObject_preserves Math_random Math_cos Math_sin round_ok).
    + intros obj s. apply updateObject_round_ok.
    + apply (round_ok_same a); assumption.
  - apply (timers_ok_same a3); [exact R3|]. subst a3.
    apply (forEachObject_preserves Math_random Math_cos Math_sin timers_ok).
    + intros obj s. apply updateObject_timers_ok.
    + apply (timers_ok_same a); assumption.
  - rewrite T3. subst a3. rewrite forEachObject_trail, T2.
    apply trailTick_aged. exact Htrail.
  - rewrite P3. subst a3.
    apply (forEachObject_preserves Math_random Math_cos Math_sin
             (fun s => alive_particles (particlesRef s))).
    + intros obj s. apply updateObject_particles_alive.
    + rewrite P2. apply stepParticles_alive.
  - destruct O3 as [-> | (obj & Hfresh & ->)].
    + apply filter_keeps_unsliced.
    + apply Forall_app. split; [apply filter_keeps_unsliced|].
      constructor; [exact Hfresh|constructor].
Qed.

End TickHealth.

(** ** Handlers and runs *)

Lemma fireTimeout_pending (id : nat) (a : App) :
  timers_ok a ->
  timers_ok (fireTimeout id a)
  /\ (is_pending id a = true ->
      pendingTimeouts (fireTimeout id a) = []
      /\ comboRef (fireTimeout id a) = 0%Z /\ combo (fireTimeout id a) = 0%Z)
  /\ (is_pending id a = false -> fireTimeout id a = a).
Proof.
  intros [Hnext Hpending]. unfold fireTimeout, is_pending, timers_ok.
  destruct Hpending as [Hnone|(id' & Href & Hid & Hone)].
  - rewrite Hnone. cbn. repeat split; auto; try discriminate.
  - rewrite Hone. cbn [existsb fst orb].
    destruct (Nat.eqb id' id) eqn:Heq; cbn [orb].
    + unfold comboTimeout, clearTimeout, setCombo.
      cbn [pendingTimeouts set_pendingTimeouts set_combo set_comboRef nextTimeoutId
           comboTimerRef comboRef combo].
      rewrite Hone. cbn [filter fst]. rewrite Heq. cbn.
      repeat split; auto; discriminate.
    + repeat split; auto; try discriminate. right. exists id'. auto.
Qed.

Lemma fireTimeout_healthy (id : nat) (a : App) : healthy a -> healthy (fireTimeout id a).
Proof.
  intros (Hround & Htimers & Hrest).
  split; [|split; [apply (fireTimeout_pending id a Htimers)|]].
  - unfold fireTimeout. destruct (is_pending id a); [|exact Hround].
    unfold round_ok in *. cbn.
    destruct Hround as (M & (Hs & Hc & Hl) & Hp & Ho).
    repeat split; try tauto; try lia.
  - unfold fireTimeout. destruct (is_pending id a); exact Hrest.
Qed.

Section Handlers.
Variable Math_random : nat -> float.
Variable Math_cos Math_sin : float -> float.
Variable Math_hypot : float -> float -> float.
Variable floor_index : float -> option nat.
Variable toString36 : float -> string.
Variable JSON_parse : string -> option (option LevelData).

Abbreviation handle' :=
  (handle Math_random Math_cos Math_sin Math_hypot floor_index toString36 JSON_parse).
Abbreviation run' :=
  (run Math_random Math_cos Math_sin Math_hypot floor_index toString36 JSON_parse).

Lemma initializeGame_click_healthy (a : App) : healthy a -> healthy (initializeGame_click a).
Proof.
  intros ((M & B & Hp & Ho) & Htimers & Hrest).
  split; [|split; [exact Htimers|exact Hrest]].
  unfold round_ok. cbn. repeat split; try tauto; try lia; discriminate.
Qed.

Lemma startCamera_healthy (cam : CameraOutcome) (a : App) :
  healthy a -> healthy (startCamera cam a).
Proof.
  intros Hok. destruct cam; [exact Hok|].
  destruct Hok as ((M & B & Hp & Ho) & Htimers & Hrest).
  split; [|split; [exact Htimers|exact Hrest]].
  unfold round_ok. cbn. repeat split; try tauto; try lia; discriminate.
Qed.

Lemma initializeGame_level_healthy (outcome : Outcome (option LevelData)) (a : App) :
  healthy a -> healthy (initializeGame_level outcome a).
Proof.
  intros ((M & B & Hp & Ho) & Htimers & Htrail & Hparts & Hobjs).
  destruct outcome as [level|e];
    (split; [|split; [exact Htimers|]]);
    try (unfold round_ok; cbn; repeat split; try tauto; try lia; discriminate);
    cbn; repeat split; try assumption; constructor.
Qed.

Lemma initializeGame_healthy (cam : CameraOutcome) (reply : ServiceReply) (a : App) :
  healthy a -> healthy (initializeGame JSON_parse cam reply a).
Proof.
  intros Hok. unfold initializeGame.
  apply initializeGame_level_healthy.
  destruct (permissionGranted a);
    [|apply startCamera_healthy]; apply initializeGame_click_healthy, Hok.
Qed.

Lemma handle_healthy (ev : Event) (c : Component) :
  healthy (state c) -> healthy (state (handle' ev c)).
Proof.
  intros Hok. destruct ev as [|cam|reply| |time canvas camera|id]; cbn [handle].
  - destruct (has_button (gameState (state c))); [|exact Hok].
    destruct (permissionGranted (state c)); cbn [state];
      apply initializeGame_click_healthy, Hok.
  - destruct (awaitingCamera c); [exact Hok|]. cbn [state].
    apply startCamera_healthy, Hok.
  - destruct (awaitingLevel c); [exact Hok|]. cbn [state].
    apply initializeGame_level_healthy, Hok.
  - destruct (streamAttached c); exact Hok.
  - cbn [with_state state]. now apply gameLoop_healthy.
  - cbn [with_state state]. now apply fireTimeout_healthy.
Qed.

Lemma mounted_healthy : healthy mounted.
Proof.
  unfold healthy, round_ok, timers_ok. cbn.
  repeat split; try lia; try discriminate; try (left; reflexivity); constructor.
Qed.

Lemma run_healthy (events : list Event) (c : Component) :
  healthy (state c) -> healthy (state (run' events c)).
Proof.
  revert c. induction events as [|ev events IH]; intros c Hok; cbn [run fold_left].
  - exact Hok.
  - apply IH, handle_healthy, Hok.
Qed.

(** A run of [initializeGame] that nothing interrupts is the three
    stretches one after the other. *)
Lemma run_initializeGame (cam : CameraOutcome) (reply : ServiceReply) (c : Component) :
  has_button (gameState (state c)) = true ->
  state (run' (if permissionGranted (state c) then [Click; LevelSettles reply]
               else [Click; CameraSettles cam; LevelSettles reply]) c)
  = initializeGame JSON_parse cam reply (state c).
Proof.
  intros Hbutton. unfold initializeGame.
  destruct (permissionGranted (state c)) eqn:Hgranted;
    cbn [run fold_left handle]; rewrite Hbutton, Hgranted; reflexivity.
Qed.

End Handlers.

(** ** What a tick does to the round *)

Lemma slash_not_counted (cues : list Sound) (a b : App) :
  played b = played a \/ played b = snd_slash :: played a ->
  slicesReported b = slicesReported a /\ cuesPlayed snd_wrong b = cuesPlayed snd_wrong a.
Proof.
  unfold slicesReported, cuesPlayed. intros [-> | ->]; split; reflexivity.
Qed.

Section TickRound.
Variable Math_random : nat -> float.
Variable Math_cos Math_sin : float -> float.
Variable Math_hypot : float -> float -> float.
Variable floor_index : float -> option nat.
Variable toString36 : float -> string.

Abbreviation updateObject' := (updateObject Math_random Math_cos Math_sin).
Abbreviation forEachObject' := (forEachObject Math_random Math_cos Math_sin).
Abbreviation gameLoop' :=
  (gameLoop Math_random Math_cos Math_sin Math_hypot floor_index toString36).

Lemma updateObject_advances (obj : GameObject float) (a : App) :
  advances a (snd (updateObject' obj a)).
Proof.
  unfold advances. intros Hc.
  destruct (updateObject_state Math_random Math_cos Math_sin obj a)
    as [Hsame | (burst & _ & _ & _ & Hhit)]; [rewrite Hsame; lia|rewrite Hhit].
  destruct (obj_isTarget obj).
  - destruct (targetHit_round (splattered burst a)) as (Sr & _ & Cr & _ & Lr & _).
    rewrite Sr, Cr, Lr.
    cbn [scoreRef comboRef livesRef splattered set_particlesRef set_randomDraws]. lia.
  - destruct (distractorHit_round (splattered burst a)) as (Lr & _ & Cr & _ & Sr & _).
    rewrite Sr, Cr, Lr.
    cbn [scoreRef comboRef livesRef splattered set_particlesRef set_randomDraws]. lia.
Qed.

(** X5. From a state whose combo is not negative, a frame never lowers the
    score, never raises lives and leaves the combo not negative, in any
    phase and whatever the trail and the objects are. *)
Theorem gameLoop_score_up_lives_down (time : float) (canvas : option Canvas)
    (camera : option Capture) (a : App) :
  (0 <= comboRef a)%Z ->
  let a' := gameLoop' time canvas camera a in
  (scoreRef a <= scoreRef a' /\ livesRef a' <= livesRef a /\ 0 <= comboRef a')%Z.
Proof.
  intros Hc a'. subst a'.
  destruct (gameLoop_runs_or_idles Math_random Math_cos Math_sin Math_hypot floor_index
              toString36 time canvas camera a) as [(cv & Hcv & Hplaying)|Hidle];
    [subst canvas|rewrite Hidle; lia].
  destruct (gameLoop_stages Math_random Math_cos Math_sin Math_hypot floor_index toString36
              time cv camera a Hplaying)
    as (a2 & objs & a3 & (R2 & _) & Hloop & (R3 & _)).
  assert (Hadv : advances a2 a3).
  { replace a3 with (snd (forEachObject' (objectsRef a) a2)) by (rewrite Hloop; reflexivity).
    apply (forEachObject_related Math_random Math_cos Math_sin advances).
    - unfold advances. intros s. lia.
    - unfold advances. intros s1 s2 s3 H12 H23 H1.
      specialize (H12 H1). specialize (H23 (proj1 H12)). lia.
    - apply updateObject_advances. }
  unfold same_round, advances in *.
  destruct R2 as (_ & _ & _ & _ & _ & _ & _ & _ & S2 & C2 & L2 & _).
  destruct R3 as (_ & _ & _ & _ & _ & _ & _ & _ & S3 & C3 & L3 & _).
  rewrite <- S3, <- C3, <- L3, S2, L2. rewrite C2 in Hc. specialize (Hadv Hc). lia.
Qed.

Lemma updateObject_accounted (obj : GameObject float) (a : App) :
  accounted a (snd (updateObject' obj a)).
Proof.
  unfold accounted.
  destruct (updateObject_state Math_random Math_cos Math_sin obj a)
    as [Hsame | (burst & Hlen & _ & _ & Hhit)];
    [rewrite Hsame; repeat split; lia|rewrite Hhit].
  assert (Hparts : length (particlesRef (splattered burst a))
                   = (length (particlesRef a) + 16)%nat).
  { cbn [particlesRef splattered set_particlesRef set_randomDraws].
    rewrite length_app, Hlen. reflexivity. }
  assert (Hcues : played (splattered burst a) = played a) by reflexivity.
  assert (Hlives : livesRef (splattered burst a) = livesRef a) by reflexivity.
  destruct (obj_isTarget obj).
  - destruct (targetHit_round (splattered burst a)) as (_ & _ & _ & _ & Lr & _ & _ & Sl).
    destruct (targetHit_rest (splattered burst a)) as (P & Cues & _).
    rewrite Lr, Sl, P, Hparts, Hlives.
    assert (Hw : cuesPlayed snd_wrong (targetHit (splattered burst a))
                 = cuesPlayed snd_wrong a).
    { unfold cuesPlayed. rewrite <- Hcues. destruct Cues as [-> | ->]; reflexivity. }
    assert (Hs : slicesReported (splattered burst a) = slicesReported a) by reflexivity.
    rewrite Hw, Hs. repeat split; lia.
  - destruct (distractorHit_round (splattered burst a))
      as (Lr & _ & _ & _ & _ & _ & _ & _ & _ & Sl).
    destruct (distractorHit_rest (splattered burst a)) as (P & Cues & _).
    rewrite Lr, Sl, P, Hparts, Hlives.
    assert (Hw : cuesPlayed snd_wrong (distractorHit (splattered burst a))
                 = S (cuesPlayed snd_wrong a)).
    { unfold cuesPlayed. rewrite Cues, Hcues. reflexivity. }
    assert (Hs : slicesReported (splattered burst a) = slicesReported a) by reflexivity.
    rewrite Hw, Hs. repeat split; lia.
Qed.

(** X6. In Playing, the lives lost in a frame are the cues [wrong] played
    in it, one life each, with no floor at zero; and the particles after the
    frame are the ones that survived their step plus sixteen for every slice
    reported in it. *)
Theorem gameLoop_accounts (time : float) (cv : Canvas) (camera : option Capture) (a : App) :
  gameState a = PLAYING ->
  let a' := gameLoop' time (Some cv) camera a in
  (livesRef a' + Z.of_nat (cuesPlayed snd_wrong a')
   = livesRef a + Z.of_nat (cuesPlayed snd_wrong a))%Z
  /\ (slicesReported a <= slicesReported a')%nat
  /\ length (particlesRef a')
     = (length (stepParticles (particlesRef a))
        + 16 * (slicesReported a' - slicesReported a))%nat.
Proof.
  intros Hplaying a'. subst a'.
  destruct (gameLoop_stages Math_random Math_cos Math_sin Math_hypot floor_index toString36
              time cv camera a Hplaying)
    as (a2 & objs & a3 & (R2 & _ & P2 & _ & S2 & _) & Hloop & (R3 & _ & P3 & S3 & _)).
  assert (Hacc : accounted a2 a3).
  { replace a3 with (snd (forEachObject' (objectsRef a) a2)) by (rewrite Hloop; reflexivity).
    apply (forEachObject_related Math_random Math_cos Math_sin accounted).
    - unfold accounted. intros s. repeat split; lia.
    - unfold accounted. intros s1 s2 s3 (L12 & S12 & P12) (L23 & S23 & P23).
      repeat split; lia.
    - apply updateObject_accounted. }
  destruct (slash_not_counted [] a a2 S2) as [Sl2 W2].
  unfold same_round, accounted, cuesPlayed, slicesReported in *.
  destruct R2 as (_ & _ & _ & _ & _ & _ & _ & _ & _ & _ & L2 & _).
  destruct R3 as (_ & _ & _ & _ & _ & _ & _ & _ & _ & _ & L3 & _).
  rewrite P3, S3, <- L3. rewrite P2, Sl2, W2, <- L2 in Hacc. exact Hacc.
Qed.

Lemma updateObject_stays (obj : GameObject float) (a : App) :
  stays a (snd (updateObject' obj a)).
Proof.
  unfold stays.
  destruct (updateObject_state Math_random Math_cos Math_sin obj a)
    as [Hsame | (burst & _ & _ & _ & Hhit)];
    [rewrite Hsame; repeat split; auto; lia|rewrite Hhit].
  destruct (obj_isTarget obj).
  - destruct (targetHit_round (splattered burst a)) as (_ & _ & _ & _ & Lr & _ & G & _).
    destruct (targetHit_rest (splattered burst a)) as (_ & _ & Lv & E & Pm & _).
    rewrite Lr, G, Lv, E, Pm.
    cbn [livesRef gameState levelData errorMsg permissionGranted splattered
         set_particlesRef set_randomDraws].
    repeat split; auto; lia.
  - destruct (distractorHit_round (splattered burst a))
      as (Lr & _ & _ & _ & _ & _ & _ & _ & G & _).
    destruct (distractorHit_rest (splattered burst a)) as (_ & _ & Lv & E & Pm & _).
    rewrite Lr, G, Lv, E, Pm.
    cbn [livesRef gameState levelData errorMsg permissionGranted splattered
         set_particlesRef set_randomDraws].
    destruct (livesRef a - 1 <=? 0)%Z eqn:Hz.
    + apply Z.leb_le in Hz. repeat split; auto; try lia.
    + repeat split; auto; lia.
Qed.

(** X7. A frame never touches the level, the error message or the camera
    permission, and it leaves the phase as it was unless it goes from
    Playing to GameOver, which it does only with no life left. *)
Theorem gameLoop_phase (time : float) (canvas : option Canvas)
    (camera : option Capture) (a : App) :
  let a' := gameLoop' time canvas camera a in
  levelData a' = levelData a /\ errorMsg a' = errorMsg a
  /\ permissionGranted a' = permissionGranted a
  /\ (gameState a' = gameState a
      \/ (gameState a = PLAYING /\ gameState a' = GAME_OVER /\ (livesRef a' <= 0)%Z)).
Proof.
  intros a'. subst a'.
  destruct (gameLoop_runs_or_idles Math_random Math_cos Math_sin Math_hypot floor_index
              toString36 time canvas camera a) as [(cv & Hcv & Hplaying)|Hidle];
    [subst canvas|rewrite Hidle; repeat split; auto].
  destruct (gameLoop_stages Math_random Math_cos Math_sin Math_hypot floor_index toString36
              time cv camera a Hplaying)
    as (a2 & objs & a3 & (R2 & _) & Hloop & (R3 & _)).
  assert (Hstays : stays a2 a3).
  { replace a3 with (snd (forEachObject' (objectsRef a) a2)) by (rewrite Hloop; reflexivity).
    apply (forEachObject_related Math_random Math_cos Math_sin stays).
    - unfold stays. intros s. repeat split; auto; lia.
    - unfold stays. intros s1 s2 s3 (L12 & V12 & E12 & P12 & G12) (L23 & V23 & E23 & P23 & G23).
      repeat split; try congruence; try lia.
      destruct G23 as [G23|[G23 Z23]]; [|right; split; [exact G23|lia]].
      destruct G12 as [G12|[G12 Z12]]; [left; congruence|].
      right. split; [congruence|lia].
    - apply updateObject_stays. }
  unfold same_round, stays in *.
  destruct R2 as (G2 & V2 & E2 & P2 & _ & _ & _ & _ & _ & _ & L2 & _).
  destruct R3 as (G3 & V3 & E3 & P3 & _ & _ & _ & _ & _ & _ & L3 & _).
  destruct Hstays as (_ & V & E & P & G).
  rewrite <- G3, <- V3, <- E3, <- P3, <- L3.
  repeat split; try congruence.
  destruct G as [G|[G Z]]; [left; congruence|right; auto].
Qed.

End TickRound.

(** ** Objects through a tick *)

(** What a filter keeps of the images of a list is the image of a part of
    the list, when the filter drops whatever is not an image. *)
Lemma filter_images {A : Type} (f : A -> A) (keep : A -> bool) (l l' : list A) :
  Forall2 (fun x y => y = f x \/ keep y = false) l l' ->
  exists part, subseq part l /\ filter keep l' = map f part
               /\ Forall (fun x => keep (f x) = true) part.
Proof.
  induction 1 as [|x y l l' Hxy Hrest IH].
  - exists []. repeat split; constructor.
  - destruct IH as (part & Hsub & Hfilter & Hkept). cbn [filter].
    destruct (keep y) eqn:Hy.
    + destruct Hxy as [->|Hdrop]; [|congruence].
      exists (x :: part). split; [now constructor|]. split.
      * cbn [map]. now rewrite Hfilter.
      * constructor; assumption.
    + exists part. split; [now constructor|]. split; assumption.
Qed.

Lemma filter_length_le {A : Type} (f : A -> bool) (l : list A) :
  (length (filter f l) <= length l)%nat.
Proof.
  induction l as [|x l IH]; cbn; [lia|]. destruct (f x); cbn; lia.
Qed.

Section TickObjects.
Variable Math_random : nat -> float.
Variable Math_cos Math_sin : float -> float.
Variable Math_hypot : float -> float -> float.
Variable floor_index : float -> option nat.
Variable toString36 : float -> string.

Abbreviation updateObject' := (updateObject Math_random Math_cos Math_sin).
Abbreviation forEachObject' := (forEachObject Math_random Math_cos Math_sin).
Abbreviation gameLoop' :=
  (gameLoop Math_random Math_cos Math_sin Math_hypot floor_index toString36).

Lemma updateObject_spawn_clock (obj : GameObject float) (a : App) :
  lastSpawnTimeRef (snd (updateObject' obj a)) = lastSpawnTimeRef a.
Proof.
  destruct (updateObject_state Math_random Math_cos Math_sin obj a)
    as [Hsame | (burst & _ & _ & _ & Hhit)]; [rewrite Hsame; reflexivity|rewrite Hhit].
  destruct (obj_isTarget obj).
  - unfold targetHit, incrementCombo, setTimeout, clearTimeout, setScore, setCombo, playSound.
    cbn -[Z.add Z.mul Z.gtb].
    destruct (comboRef a + 1 >? 1)%Z; cbn -[Z.add Z.mul Z.gtb];
      destruct (comboTimerRef a) as [[|id]|]; reflexivity.
  - unfold distractorHit, setLives, setCombo, playSound, setGameState.
    cbn -[Z.sub Z.leb]. destruct (livesRef a - 1 <=? 0)%Z; reflexivity.
Qed.

(** X8. In Playing, the active set after a frame is a part of the old set,
    in the old order and with no object used twice, each object of the part
    moved by one step of [moveObject] and nothing else, unsliced before and
    after and above the line 100 below the canvas; it is followed by at most
    one spawned object.  One is spawned only when more than 900 ms have
    passed since the last spawn and a level is loaded; it starts unsliced
    with radius 50 at 80 below the canvas, and the spawn clock is then set
    to the frame's time. *)
Theorem gameLoop_objects (time : float) (cv : Canvas) (camera : option Capture) (a : App) :
  gameState a = PLAYING ->
  let a' := gameLoop' time (Some cv) camera a in
  exists kept spawned,
    subseq kept (objectsRef a)
    /\ objectsRef a' = map moveObject kept ++ spawned
    /\ Forall (fun obj => obj_sliced obj = false
                          /\ obj_sliced (moveObject obj) = false
                          /\ (obj_y (moveObject obj) <? cv_height cv + 100)%float = true)
         kept
    /\ (length spawned <= 1)%nat
    /\ (forall obj, In obj spawned ->
          obj_sliced obj = false /\ obj_radius obj = 50%float
          /\ obj_y obj = (cv_height cv + 80)%float
          /\ (SPAWN_RATE <? time - lastSpawnTimeRef a)%float = true
          /\ levelData a <> None
          /\ lastSpawnTimeRef a' = time).
Proof.
  intros Hplaying a'. subst a'.
  destruct (gameLoop_stages Math_random Math_cos Math_sin Math_hypot floor_index toString36
              time cv camera a Hplaying)
    as (a2 & objs & a3 & (R2 & _ & _ & _ & _ & L2) & Hloop & (R3 & _ & _ & _ & Hspawn)).
  pose proof (forEachObject_moves Math_random Math_cos Math_sin (objectsRef a) a2) as Hobjs.
  assert (Hclock : lastSpawnTimeRef a3 = lastSpawnTimeRef a).
  { replace a3 with (snd (forEachObject' (objectsRef a) a2)) by (rewrite Hloop; reflexivity).
    rewrite <- L2.
    apply (forEachObject_related Math_random Math_cos Math_sin
             (fun s s' => lastSpawnTimeRef s' = lastSpawnTimeRef s)).
    - reflexivity.
    - intros s1 s2 s3 H12 H23. congruence.
    - apply updateObject_spawn_clock. }
  assert (Hlevel : levelData a3 = levelData a).
  { replace a3 with (snd (forEachObject' (objectsRef a) a2)) by (rewrite Hloop; reflexivity).
    destruct R2 as (_ & Hl2 & _). rewrite Hl2.
    apply (forEachObject_related Math_random Math_cos Math_sin
             (fun s s' => levelData s' = levelData s)).
    - reflexivity.
    - intros s1 s2 s3 H12 H23. congruence.
    - intros obj s.
      destruct (updateObject_stays Math_random Math_cos Math_sin obj s) as (_ & V & _).
      exact V. }
  rewrite Hloop in Hobjs. cbn [fst] in Hobjs.
  destruct (filter_images moveObject (keeps cv) (objectsRef a) objs)
    as (kept & Hsub & Hfilter & Hkept).
  { eapply Forall2_impl; [|exact Hobjs].
    intros obj obj' [->|Hs]; [now left|right].
    unfold keeps. rewrite Hs. apply andb_false_r. }
  assert (Hfacts : Forall (fun obj => obj_sliced obj = false
                                      /\ obj_sliced (moveObject obj) = false
                                      /\ (obj_y (moveObject obj) <? cv_height cv + 100)%float
                                         = true) kept).
  { eapply Forall_impl; [|exact Hkept].
    intros obj Hkeep. unfold keeps in Hkeep. apply andb_prop in Hkeep.
    destruct Hkeep as [Hy Hs]. apply negb_true_iff in Hs.
    split; [|split; assumption].
    rewrite <- (proj1 (moveObject_flags obj)). exact Hs. }
  rewrite Hclock, Hlevel, Hfilter in Hspawn.
  exists kept.
  destruct (SPAWN_RATE <? time - lastSpawnTimeRef a)%float eqn:Hdue.
  - destruct Hspawn as [Htime Hspawn].
    destruct (levelData a) as [level|] eqn:Hl.
    + destruct Hspawn as (obj & (Hs & Hr & Hy & _) & Ho).
      exists [obj]. rewrite Ho.
      split; [exact Hsub|]. split; [reflexivity|]. split; [exact Hfacts|].
      split; [cbn; lia|].
      intros obj0 [<-|[]]. repeat split; auto. discriminate.
    + exists []. rewrite Hspawn, app_nil_r.
      split; [exact Hsub|]. split; [reflexivity|]. split; [exact Hfacts|].
      split; [cbn; lia|]. intros obj0 [].
  - destruct Hspawn as [_ Ho].
    exists []. rewrite Ho, app_nil_r.
    split; [exact Hsub|]. split; [reflexivity|]. split; [exact Hfacts|].
    split; [cbn; lia|]. intros obj0 [].
Qed.

(** With at most one point in the trail there is no segment with history:
    the pass slices nothing. *)
(** X9. A frame that starts with at most one point in the trail slices
    nothing: score, combo, lives, phase, the slices reported and the pending
    timeouts are as before, whatever objects are active and wherever the
    motion sample lands. *)
Theorem gameLoop_short_trail (time : float) (canvas : option Canvas)
    (camera : option Capture) (a : App) :
  (length (trailRef a) <= 1)%nat ->
  let a' := gameLoop' time canvas camera a in
  scoreRef a' = scoreRef a /\ comboRef a' = comboRef a /\ livesRef a' = livesRef a
  /\ gameState a' = gameState a
  /\ slicesReported a' = slicesReported a
  /\ pendingTimeouts a' = pendingTimeouts a.
Proof.
  intros Hshort a'. subst a'.
  destruct (gameLoop_runs_or_idles Math_random Math_cos Math_sin Math_hypot floor_index
              toString36 time canvas camera a) as [(cv & Hcv & Hplaying)|Hidle];
    [subst canvas|rewrite Hidle; repeat split; reflexivity].
  destruct (gameLoop_stages Math_random Math_cos Math_sin Math_hypot floor_index toString36
              time cv camera a Hplaying)
    as (a2 & objs & a3 & (R2 & T2 & _ & _ & S2 & _) & Hloop & (R3 & _ & _ & S3 & _)).
  assert (Hlen2 : (length (trailRef a2) <= 2)%nat).
  { rewrite T2, trailTick_trail. unfold decayTrail.
    pose proof (filter_length_le (fun p => (0 <? tp_life p)%float)
                  (map fadePoint (trailRef match fst (detectMotion camera a) with
                                           | Some m => followMotion Math_hypot m a
                                           | None => a
                                           end))) as Hle.
    rewrite length_map in Hle.
    destruct (fst (detectMotion camera a)) as [m|]; cbv beta iota in Hle |- *; [|lia].
    destruct (followMotion_trail Math_hypot m a) as (p & _ & Hpush).
    rewrite Hpush in Hle |- *. cbn [length] in Hle. lia. }
  assert (Hsame : a3 = a2).
  { replace a3 with (snd (forEachObject' (objectsRef a) a2)) by (rewrite Hloop; reflexivity).
    apply (forEachObject_preserves Math_random Math_cos Math_sin (fun s => s = a2));
      [|reflexivity].
    intros obj s ->. rewrite updateObject_unfold.
    replace (2 <? length (trailRef a2))%nat with false
      by (symmetry; apply Nat.ltb_ge; exact Hlen2).
    rewrite andb_false_r. reflexivity. }
  subst a3.
  destruct (slash_not_counted [] a a2 S2) as [Sl2 _].
  unfold same_round, slicesReported in *.
  destruct R2 as (G2 & _ & _ & _ & _ & _ & _ & _ & Sc2 & C2 & L2 & _ & P2 & _).
  destruct R3 as (G3 & _ & _ & _ & _ & _ & _ & _ & Sc3 & C3 & L3 & _ & P3 & _).
  rewrite S3, Sl2. repeat split; congruence.
Qed.

End TickObjects.

(** ** The debounced combo timeout *)

(** X10. The combo timeout is debounced.  From a state with at most one
    timeout pending, the one [comboTimerRef] names, a target hit leaves
    exactly one timeout of 1500 ms pending, under a fresh handle; if it fires,
    the combo is 0, nothing is pending and score and lives are untouched; if
    a second target hit comes first, the first handle is cleared (its firing
    does nothing), one timeout is pending under the next handle and the
    combo has grown by 2. *)
Theorem combo_debounce (a : App) :
  timers_ok a ->
  let id := nextTimeoutId a in
  let b := targetHit a in
  let c := targetHit b in
  (pendingTimeouts b = [(id, 1500%Z)] /\ comboTimerRef b = Some id)
  /\ (comboRef (fireTimeout id b) = 0%Z /\ combo (fireTimeout id b) = 0%Z
      /\ pendingTimeouts (fireTimeout id b) = []
      /\ scoreRef (fireTimeout id b) = scoreRef b
      /\ livesRef (fireTimeout id b) = livesRef b)
  /\ (pendingTimeouts c = [(S id, 1500%Z)] /\ fireTimeout id c = c
      /\ comboRef c = (comboRef a + 2)%Z).
Proof.
  intros Hok id b c.
  destruct (targetHit_timers a Hok) as (Tb & Pb & Nb).
  pose proof (targetHit_timers_ok a Hok) as Hokb.
  destruct (targetHit_timers b Hokb) as (Tc & Pc & Nc).
  fold b in Tb, Pb, Nb, Hokb. fold c in Tc, Pc, Nc. fold id in Tb, Pb, Nb.
  rewrite Nb in Pc.
  assert (Hpend : is_pending id b = true).
  { unfold is_pending. rewrite Pb. cbn [existsb fst]. now rewrite Nat.eqb_refl. }
  assert (Hnot : is_pending id c = false).
  { unfold is_pending. rewrite Pc. cbn [existsb fst]. rewrite orb_false_r.
    apply Nat.eqb_neq. lia. }
  destruct (fireTimeout_pending id b Hokb) as (_ & Hfire & _).
  destruct (Hfire Hpend) as (Fp & Fc & Fd).
  destruct (fireTimeout_round id b) as (_ & _ & Fs & Fl & _).
  pose proof (targetHit_timers_ok b Hokb) as Hokc.
  destruct (fireTimeout_pending id c Hokc) as (_ & _ & Hstale).
  destruct (targetHit_round a) as (_ & _ & Ca & _).
  destruct (targetHit_round b) as (_ & _ & Cb & _).
  fold b in Ca. fold c in Cb.
  repeat split; auto.
  rewrite Cb, Ca. lia.
Qed.

(** ** Every state the component can reach *)

Section Reachable.
Variable Math_random : nat -> float.
Variable Math_cos Math_sin : float -> float.
Variable Math_hypot : float -> float -> float.
Variable floor_index : float -> option nat.
Variable toString36 : float -> string.
Variable JSON_parse : string -> option (option LevelData).

Abbreviation run' :=
  (run Math_random Math_cos Math_sin Math_hypot floor_index toString36 JSON_parse).

(** X11. In every state the mounted component can reach, by any sequence
    of clicks, camera and service answers, frames, timeouts and
    [loadedmetadata] events, runs of [initializeGame] that overlap included:
    the displayed score, combo and lives are those of the refs; score and
    combo are not negative and lives is at most 3; in Playing there is at
    least one life, in GameOver none. *)
Theorem reachable_round (events : list Event) :
  let a := state (run' events mountedComponent) in
  (score a = scoreRef a /\ combo a = comboRef a /\ lives a = livesRef a)
  /\ (0 <= scoreRef a /\ 0 <= comboRef a /\ livesRef a <= 3)%Z
  /\ (gameState a = PLAYING -> 1 <= livesRef a)%Z
  /\ (gameState a = GAME_OVER -> livesRef a <= 0)%Z.
Proof.
  exact (proj1 (run_healthy Math_random Math_cos Math_sin Math_hypot floor_index toString36
                  JSON_parse events mountedComponent mounted_healthy)).
Qed.

(** X12. In every reachable state the trail holds at most 8 points, every
    trail point and every particle has life above 0, and no object of the
    active set is sliced. *)
Theorem reachable_entities (events : list Event) :
  let a := state (run' events mountedComponent) in
  (length (trailRef a) <= 8)%nat
  /\ Forall (fun p => (0 <? tp_life p)%float = true) (trailRef a)
  /\ Forall (fun p => (0 <? p_life p)%float = true) (particlesRef a)
  /\ Forall (fun obj => obj_sliced obj = false) (objectsRef a).
Proof.
  destruct (run_healthy Math_random Math_cos Math_sin Math_hypot floor_index toString36
              JSON_parse events mountedComponent mounted_healthy) as (_ & _ & Htrail & Hparts & Hobjs).
  cbv zeta. split; [|split; [|split; assumption]].
  - apply aged_from_length in Htrail. lia.
  - clear Hparts Hobjs.
    induction Htrail as [lo|lo k p trail Hk H8 Hlife Hrest IH]; constructor.
    + rewrite Hlife. apply life_after_positive. exact H8.
    + exact IH.
Qed.

(** X13. In every reachable state at most one timeout is pending; it is
    the one [comboTimerRef] names, its delay is 1500 ms and its handle is
    at least 1 and below the next handle. *)
Theorem reachable_timers (events : list Event) :
  let a := state (run' events mountedComponent) in
  (length (pendingTimeouts a) <= 1)%nat
  /\ forall id delay, In (id, delay) (pendingTimeouts a) ->
       comboTimerRef a = Some id /\ delay = 1500%Z /\ (1 <= id < nextTimeoutId a)%nat.
Proof.
  destruct (run_healthy Math_random Math_cos Math_sin Math_hypot floor_index toString36
              JSON_parse events mountedComponent mounted_healthy) as (_ & (_ & Hpending) & _).
  cbv zeta. destruct Hpending as [->|(id' & Href & Hid & ->)].
  - split; [cbn; lia|]. intros id delay [].
  - split; [cbn; lia|]. intros id delay [Heq|[]].
    injection Heq as <- <-. auto.
Qed.

End Reachable.

(** ** Startup, both ways *)

Section StartupFacts.
Variable JSON_parse : string -> option (option LevelData).

(** [generateLevel] returns exactly when the service responds with a text
    that is not empty and that [JSON.parse] does not refuse, and it returns
    what [JSON.parse] made of the text. *)
Lemma generateLevel_returned (reply : ServiceReply) (value : option LevelData) :
  generateLevel JSON_parse reply = Returned value <->
  exists text, reply = ServiceResponds (Some text) /\ text <> EmptyString
               /\ JSON_parse text = Some value.
Proof.
  split.
  - destruct reply as [e|[text|]]; cbn; try discriminate.
    destruct (String.eqb text EmptyString) eqn:Hempty; [discriminate|].
    destruct (JSON_parse text) as [l|] eqn:Hparse; [|discriminate].
    intros [= <-]. exists text. repeat split; try assumption.
    apply String.eqb_neq. exact Hempty.
  - intros (text & -> & Hne & Hparse). cbn.
    apply String.eqb_neq in Hne. rewrite Hne, Hparse. reflexivity.
Qed.

(** X15. [initializeGame], from the service's reply to the state it ends
    in.  It ends in Playing exactly when the service responds with a text
    that is not empty and that [JSON.parse] does not refuse, whatever the
    camera did and whatever the text parses to; in every other case it ends
    in Error with the message of its [catch] and resets nothing.  In Playing
    [levelData] is what [JSON.parse] made of the text, [null] for the text
    null: the game then plays without a level.  Score, combo and lives are 0,
    0 and 3 (displayed and in the refs) and objects, trail and particles are
    empty; the pending timeouts, the previous frame, the sword position and
    the spawn clock are kept; and if the camera was refused on the way, its
    message stays in [errorMsg] while the game plays. *)
Theorem initializeGame_outcome (cam : CameraOutcome) (reply : ServiceReply) (a : App) :
  let a' := initializeGame JSON_parse cam reply a in
  (gameState a' = PLAYING <->
   exists text value, reply = ServiceResponds (Some text) /\ text <> EmptyString
                      /\ JSON_parse text = Some value)
  /\ (gameState a' = PLAYING
      \/ (gameState a' = ERROR /\ errorMsg a' = Some "AI Dojo disconnected."%string
          /\ levelData a' = levelData a
          /\ (scoreRef a', comboRef a', livesRef a') = (scoreRef a, comboRef a, livesRef a)
          /\ objectsRef a' = objectsRef a /\ trailRef a' = trailRef a
          /\ particlesRef a' = particlesRef a))
  /\ (forall text value,
        reply = ServiceResponds (Some text) -> text <> EmptyString ->
        JSON_parse text = Some value ->
        levelData a' = value
        /\ (score a', combo a', lives a') = (0, 0, 3)%Z
        /\ (scoreRef a', comboRef a', livesRef a') = (0, 0, 3)%Z
        /\ objectsRef a' = [] /\ trailRef a' = [] /\ particlesRef a' = []
        /\ (pendingTimeouts a' = pendingTimeouts a /\ comboTimerRef a' = comboTimerRef a
            /\ prevFrameDataRef a' = prevFrameDataRef a /\ swordPosRef a' = swordPosRef a
            /\ lastSpawnTimeRef a' = lastSpawnTimeRef a)
        /\ errorMsg a' =
             (if permissionGranted a then errorMsg a
              else match cam with
                   | StreamGranted => errorMsg a
                   | StreamRefused => Some "Camera access required."%string
                   end)).
Proof.
  cbv zeta. unfold initializeGame, initializeGame_click.
  split; [|split].
  - split.
    + intros Hplaying.
      destruct (generateLevel JSON_parse reply) as [value|e] eqn:Hgen.
      * apply generateLevel_returned in Hgen. destruct Hgen as (text & H).
        exists text, value. exact H.
      * destruct (permissionGranted a); [|destruct cam]; cbn in Hplaying;
          discriminate Hplaying.
    + intros (text & value & Hreply & Hne & Hparse).
      assert (Hgen : generateLevel JSON_parse reply = Returned value)
        by (apply generateLevel_returned; exists text; auto).
      rewrite Hgen. destruct (permissionGranted a); [|destruct cam]; reflexivity.
  - destruct (generateLevel JSON_parse reply) as [value|e].
    + left. destruct (permissionGranted a); [|destruct cam]; reflexivity.
    + right. destruct (permissionGranted a); [|destruct cam]; cbn; repeat split.
  - intros text value Hreply Hne Hparse.
    assert (Hgen : generateLevel JSON_parse reply = Returned value)
      by (apply generateLevel_returned; exists text; auto).
    rewrite Hgen.
    destruct (permissionGranted a); [|destruct cam]; cbn; repeat split; reflexivity.
Qed.

End StartupFacts.

(** ** Particles *)

Lemma moveParticle_life (k : nat) (p : Particle) :
  p_life p = 1%float -> p_life (Nat.iter k moveParticle p) = particle_life_after k.
Proof.
  intros Hlife. induction k as [|k IH]; [exact Hlife|].
  unfold particle_life_after. rewrite !Nat.iter_succ. fold (particle_life_after k).
  cbn [moveParticle p_life]. rewrite IH. reflexivity.
Qed.

Lemma particle_life_positive (k : nat) :
  (k <= 33)%nat -> (0 <? particle_life_after k)%float = true.
Proof.
  intros Hk. do 34 (destruct k as [|k]; [vm_compute; reflexivity|]). lia.
Qed.

(** X16. A particle with a full life is drawn for 33 frames: it is still
    there after each of the first 33 steps, moved every time, and the 34th
    step removes it for good. *)
Theorem particle_lifetime (p : Particle) :
  p_life p = 1%float ->
  (forall k, (k <= 33)%nat -> Nat.iter k stepParticles [p] = [Nat.iter k moveParticle p])
  /\ (forall k, (34 <= k)%nat -> Nat.iter k stepParticles [p] = []).
Proof.
  intros Hlife.
  assert (Hearly : forall k, (k <= 33)%nat ->
            Nat.iter k stepParticles [p] = [Nat.iter k moveParticle p]).
  { induction k as [|k IH]; intros Hk; [reflexivity|].
    rewrite !Nat.iter_succ, IH by lia. unfold stepParticles. cbn [map filter].
    change (moveParticle (Nat.iter k moveParticle p))
      with (Nat.iter (S k) moveParticle p).
    rewrite (moveParticle_life (S k) p Hlife), (particle_life_positive (S k) Hk).
    reflexivity. }
  split; [exact Hearly|].
  assert (Hgone : Nat.iter 34 stepParticles [p] = []).
  { rewrite Nat.iter_succ, Hearly by lia. unfold stepParticles. cbn [map filter].
    change (moveParticle (Nat.iter 33 moveParticle p))
      with (Nat.iter 34 moveParticle p).
    rewrite (moveParticle_life 34 p Hlife). reflexivity. }
  intros k Hk. replace k with ((k - 34) + 34)%nat by lia.
  rewrite Nat.iter_add, Hgone. clear. induction (k - 34)%nat as [|n IH]; [reflexivity|].
  rewrite Nat.iter_succ, IH. reflexivity.
Qed.

(** ** The collision test as reach *)


(** ** Spawning *)

Section SpawnFacts.
Variable Math_random : nat -> float.
Variable floor_index : float -> option nat.
Variable toString36 : float -> string.

Abbreviation spawnObject' := (spawnObject Math_random floor_index toString36).

(** X18. Without a level [spawnObject] does nothing.  With one it appends
    a single object and leaves the others, the trail, the particles and the
    round alone; it draws 7 random numbers; the object is unsliced, of radius
    50, unrotated, 80 below the given height, a target exactly when the first
    draw is above 0.35, green if a target and red if not; its label is taken
    from the targets if it is a target and from the distractors if not,
    whenever the drawn index is inside that list. *)
Theorem spawnObject_fresh (width height : float) (a : App) :
  match levelData a with
  | None => spawnObject' width height a = a
  | Some level =>
      exists obj,
        objectsRef (spawnObject' width height a) = objectsRef a ++ [obj]
        /\ randomDraws (spawnObject' width height a) = (7 + randomDraws a)%nat
        /\ same_round a (spawnObject' width height a)
        /\ trailRef (spawnObject' width height a) = trailRef a
        /\ particlesRef (spawnObject' width height a) = particlesRef a
        /\ obj_sliced obj = false /\ obj_radius obj = 50%float
        /\ obj_rotation obj = 0%float /\ obj_y obj = (height + 80)%float
        /\ obj_isTarget obj = (0.35 <? Math_random (randomDraws a))%float
        /\ obj_color obj = (if obj_isTarget obj then "#34d399" else "#f87171")%string
        /\ let vocabulary := if obj_isTarget obj then targets level else distractors level in
           match floor_index (Math_random (S (randomDraws a))
                              * Z2F (Z.of_nat (length vocabulary)))%float with
           | Some i => (i < length vocabulary)%nat -> In (obj_text obj) vocabulary
           | None => obj_text obj = "undefined"%string
           end
  end.
Proof.
  unfold spawnObject. destruct (levelData a) as [level|]; [|reflexivity].
  eexists. split; [reflexivity|]. cbn -[Nat.add].
  unfold same_round. cbn.
  repeat split.
  destruct (0.35 <? Math_random (randomDraws a))%float;
    match goal with |- context [floor_index ?v] => destruct (floor_index v) as [i|] end;
    try reflexivity; intros Hi; apply nth_In; exact Hi.
Qed.

End SpawnFacts.


(** ** The blade's path *)

Lemma firstn_snoc {A : Type} (l : list A) (k : nat) (x : A) :
  nth_error l k = Some x -> firstn (S k) l = firstn k l ++ [x].
Proof.
  revert k. induction l as [|y l IH]; intros [|k]; cbn; try discriminate.
  - intros [= ->]. reflexivity.
  - intros Hk. f_equal. exact (IH k Hk).
Qed.

(** The index loop draws the curves along the older part of the trail,
    walked from its oldest point. *)
Lemma bladeCurves_along (points : list (TrailPoint float)) (i : nat) :
  (i < length points)%nat ->
  bladeCurves points i = curvesAlong (rev (firstn (S i) points)).
Proof.
  induction i as [|i IH]; intros Hi.
  - destruct points as [|p points]; [cbn in Hi; lia|]. reflexivity.
  - cbn [bladeCurves].
    destruct (nth_error points (S i)) as [p1|] eqn:H1;
      [|apply nth_error_None in H1; lia].
    destruct (nth_error points i) as [p2|] eqn:H2;
      [|apply nth_error_None in H2; lia].
    rewrite (firstn_snoc points (S i) p1 H1), (firstn_snoc points i p2 H2) in *.
    rewrite !rev_app_distr. cbn [rev app curvesAlong].
    rewrite IH by lia. rewrite rev_app_distr. reflexivity.
Qed.

Lemma curvesAlong_count (path : list (TrailPoint float)) :
  length (filter is_curve (curvesAlong path)) = (length path - 1)%nat
  /\ length (curvesAlong path) = (length path - 1)%nat.
Proof.
  induction path as [|p [|p' newer] IH]; try (split; reflexivity).
  cbn [curvesAlong filter is_curve bladeCurve length] in *. lia.
Qed.

(** X19. [drawBlade] draws nothing for a trail of fewer than 3 points.
    For a longer one it issues, between one [save] and one [restore], one
    path that starts at the oldest point, has one curve for every point
    between the oldest and the tip (length - 2 of them), walked from old to
    new, each with that point as control point and ending midway to its newer
    neighbour, and ends with a line to the tip; the path is stroked twice,
    12 wide in the outer colour and then 4 wide in the core colour. *)
Theorem drawBlade_path (points : list (TrailPoint float)) :
  ((length points < 3)%nat -> drawBlade points = [])
  /\ ((3 <= length points)%nat ->
      exists tip body oldest,
        hd_error points = Some tip
        /\ points = body ++ [oldest]
        /\ drawBlade points =
           [ctx_save; ctx_lineCap "round"; ctx_lineJoin "round";
            ctx_globalCompositeOperation "lighter";
            ctx_shadowBlur 20; ctx_shadowColor BLADE_COLOR_OUTER;
            ctx_beginPath; ctx_moveTo (tp_x oldest) (tp_y oldest)]
           ++ curvesAlong (rev body)
           ++ [ctx_lineTo (tp_x tip) (tp_y tip);
               ctx_strokeStyle BLADE_COLOR_OUTER; ctx_lineWidth 12; ctx_stroke;
               ctx_lineWidth 4; ctx_strokeStyle BLADE_COLOR_CORE; ctx_stroke;
               ctx_restore]
        /\ length (filter is_curve (drawBlade points)) = (length points - 2)%nat
        /\ length (filter is_stroke (drawBlade points)) = 2%nat).
Proof.
  split.
  - intros Hshort. unfold drawBlade.
    apply Nat.ltb_lt in Hshort. rewrite Hshort. reflexivity.
  - intros Hlong.
    destruct points as [|tip rest] eqn:Hpoints; [cbn in Hlong; lia|].
    rewrite <- Hpoints in *.
    destruct (exists_last (l := points)) as (body & oldest & Hlast);
      [rewrite Hpoints; discriminate|].
    assert (Hlen : length points = S (length body)).
    { rewrite Hlast, length_app. cbn. lia. }
    exists tip, body, oldest.
    split; [rewrite Hpoints; reflexivity|]. split; [exact Hlast|].
    assert (Hdraw : drawBlade points =
           [ctx_save; ctx_lineCap "round"; ctx_lineJoin "round";
            ctx_globalCompositeOperation "lighter";
            ctx_shadowBlur 20; ctx_shadowColor BLADE_COLOR_OUTER;
            ctx_beginPath; ctx_moveTo (tp_x oldest) (tp_y oldest)]
           ++ curvesAlong (rev body)
           ++ [ctx_lineTo (tp_x tip) (tp_y tip);
               ctx_strokeStyle BLADE_COLOR_OUTER; ctx_lineWidth 12; ctx_stroke;
               ctx_lineWidth 4; ctx_strokeStyle BLADE_COLOR_CORE; ctx_stroke;
               ctx_restore]).
    { unfold drawBlade.
      replace (length points <? 3)%nat with false by (symmetry; apply Nat.ltb_ge; lia).
      assert (Hold : nth_error points (length points - 1) = Some oldest).
      { rewrite Hlen, Hlast. replace (S (length body) - 1)%nat with (length body) by lia.
        rewrite nth_error_app2 by lia. rewrite Nat.sub_diag. reflexivity. }
      assert (Htip : nth_error points 0 = Some tip) by (rewrite Hpoints; reflexivity).
      rewrite Hold, Htip.
      rewrite (bladeCurves_along points (length points - 2)) by lia.
      replace (S (length points - 2)) with (length body) by lia.
      rewrite Hlast at 1. rewrite firstn_app, firstn_all, Nat.sub_diag. cbn [firstn].
      rewrite app_nil_r. reflexivity. }
    split; [exact Hdraw|].
    rewrite Hdraw.
    destruct (curvesAlong_count (rev body)) as [Hcurves _].
    rewrite length_rev in Hcurves.
    assert (Hnostroke : forall path, filter is_stroke (curvesAlong path) = []).
    { induction path as [|p [|p' newer] IH]; try reflexivity.
      cbn [curvesAlong filter is_stroke bladeCurve]. exact IH. }
    split.
    + cbn [app filter is_curve]. rewrite filter_app. cbn [filter is_curve].
      rewrite app_nil_r, Hcurves. lia.
    + cbn [app filter is_stroke]. rewrite filter_app, Hnostroke. reflexivity.
Qed.

(** ** The extras at sample values *)

(** Forty-eight pixels going from black to white are motion, and the sample
    is on the screen. *)
Lemma detectMotion_on_screen_witness : on_screen 640 0 /\ on_screen 480 0.
Proof.
  apply (detectMotion_on_screen (Some (mkCapture 8 white_frame)) (seeded black_frame) 0 0).
  vm_compute. reflexivity.
Defined.

Lemma gameLoop_score_up_lives_down_witness :
  let a' := gameLoop half no_trig no_trig no_hypot no_index no_digits 0 (Some playfield)
              None one_target in
  (scoreRef one_target <= scoreRef a' /\ livesRef a' <= livesRef one_target
   /\ 0 <= comboRef a')%Z.
Proof.
  apply (gameLoop_score_up_lives_down half no_trig no_trig no_hypot no_index no_digits
           0 (Some playfield) None one_target).
  simpl. lia.
Defined.

Lemma gameLoop_accounts_witness :
  let a' := gameLoop half no_trig no_trig no_hypot no_index no_digits 0 (Some playfield)
              None two_distractors in
  (livesRef a' + Z.of_nat (cuesPlayed snd_wrong a')
   = livesRef two_distractors + Z.of_nat (cuesPlayed snd_wrong two_distractors))%Z
  /\ (slicesReported two_distractors <= slicesReported a')%nat
  /\ length (particlesRef a')
     = (length (stepParticles (particlesRef two_distractors))
        + 16 * (slicesReported a' - slicesReported two_distractors))%nat.
Proof.
  apply (gameLoop_accounts half no_trig no_trig no_hypot no_index no_digits
           0 playfield None two_distractors).
  reflexivity.
Defined.

(** Two distractors on the blade with one life left: both are sliced in the
    same frame, lives ends at -1 and the phase is GameOver. *)
Example two_distractors_tick :
  let a' := gameLoop half no_trig no_trig no_hypot no_index no_digits 0 (Some playfield)
              None two_distractors in
  (livesRef a', lives a') = (-1, -1)%Z /\ gameState a' = GAME_OVER
  /\ played a' = [snd_wrong; snd_wrong] /\ length (particlesRef a') = 32%nat
  /\ objectsRef a' = [].
Proof. vm_compute. repeat split. Qed.

(** A round with a level loaded, a target in the air and no blade, 1000 ms
    after the last spawn: the target is kept, moved, and one object is
    spawned behind it. *)
Lemma gameLoop_objects_witness :
  let a' := gameLoop half no_trig no_trig no_hypot no_index no_digits 1000 (Some playfield)
              None spawning_round in
  exists kept spawned,
    subseq kept (objectsRef spawning_round)
    /\ objectsRef a' = map moveObject kept ++ spawned
    /\ Forall (fun obj => obj_sliced obj = false
                          /\ obj_sliced (moveObject obj) = false
                          /\ (obj_y (moveObject obj) <? cv_height playfield + 100)%float = true)
         kept
    /\ (length spawned <= 1)%nat
    /\ (forall obj, In obj spawned ->
          obj_sliced obj = false /\ obj_radius obj = 50%float
          /\ obj_y obj = (cv_height playfield + 80)%float
          /\ (SPAWN_RATE <? 1000 - lastSpawnTimeRef spawning_round)%float = true
          /\ levelData spawning_round <> None
          /\ lastSpawnTimeRef a' = 1000%float).
Proof.
  apply (gameLoop_objects half no_trig no_trig no_hypot no_index no_digits
           1000 playfield None spawning_round).
  reflexivity.
Defined.

Example spawning_round_tick :
  let a' := gameLoop half no_trig no_trig no_hypot no_index no_digits 1000 (Some playfield)
              None spawning_round in
  exists spawned,
    objectsRef a' = [moveObject target_on_blade; spawned]
    /\ obj_text spawned = "apple"%string /\ obj_isTarget spawned = true
    /\ obj_y spawned = 560%float /\ lastSpawnTimeRef a' = 1000%float.
Proof. eexists. vm_compute. repeat split. Qed.

Lemma gameLoop_short_trail_witness :
  let a' := gameLoop half no_trig no_trig no_hypot no_index no_digits 0 (Some playfield)
              None still_round in
  scoreRef a' = scoreRef still_round /\ comboRef a' = comboRef still_round
  /\ livesRef a' = livesRef still_round
  /\ gameState a' = gameState still_round
  /\ slicesReported a' = slicesReported still_round
  /\ pendingTimeouts a' = pendingTimeouts still_round.
Proof.
  apply (gameLoop_short_trail half no_trig no_trig no_hypot no_index no_digits
           0 (Some playfield) None still_round).
  simpl. lia.
Defined.

Lemma combo_debounce_witness :
  let id := nextTimeoutId in_play in
  let b := targetHit in_play in
  let c := targetHit b in
  (pendingTimeouts b = [(id, 1500%Z)] /\ comboTimerRef b = Some id)
  /\ (comboRef (fireTimeout id b) = 0%Z /\ combo (fireTimeout id b) = 0%Z
      /\ pendingTimeouts (fireTimeout id b) = []
      /\ scoreRef (fireTimeout id b) = scoreRef b
      /\ livesRef (fireTimeout id b) = livesRef b)
  /\ (pendingTimeouts c = [(S id, 1500%Z)] /\ fireTimeout id c = c
      /\ comboRef c = (comboRef in_play + 2)%Z).
Proof.
  apply (combo_debounce in_play).
  split; [simpl; lia|left; reflexivity].
Defined.

(** The parser's first text gives its level; an empty text and a text the
    parser refuses both throw; the text null is returned as [null], and the
    game then plays without a level. *)
Example generateLevel_samples :
  generateLevel fruit_json (ServiceResponds (Some "fruit"%string))
  = Returned (Some fruit_level)
  /\ generateLevel fruit_json (ServiceResponds (Some EmptyString))
     = Thrown "No response from Sensei"%string
  /\ generateLevel fruit_json (ServiceResponds (Some "{"%string)) = Thrown "SyntaxError"%string
  /\ gameState (initializeGame fruit_json StreamRefused
                  (ServiceResponds (Some "fruit"%string)) mounted) = PLAYING
  /\ generateLevel fruit_json (ServiceResponds (Some "null"%string)) = Returned None
  /\ (let a' := initializeGame fruit_json StreamGranted
                  (ServiceResponds (Some "null"%string)) mounted in
      gameState a' = PLAYING /\ levelData a' = None).
Proof. repeat split. Qed.

Lemma particle_lifetime_witness :
  (forall k, (k <= 33)%nat ->
     Nat.iter k stepParticles [still_particle] = [Nat.iter k moveParticle still_particle])
  /\ (forall k, (34 <= k)%nat -> Nat.iter k stepParticles [still_particle] = []).
Proof.
  apply (particle_lifetime still_particle). reflexivity.
Defined.


(** No blade for two points; for the three points of the sample trail, one
    curve. *)
Lemma drawBlade_path_witness :
  drawBlade (firstn 2 sample_trail) = []
  /\ length (filter is_curve (drawBlade sample_trail)) = 1%nat.
Proof.
  split.
  - apply (proj1 (drawBlade_path (firstn 2 sample_trail))). simpl. lia.
  - destruct (proj2 (drawBlade_path sample_trail)) as (tip & body & oldest & _ & _ & _ & Hc & _).
    + simpl. lia.
    + exact Hc.
Defined.
